(** * daily_nhl_team_stats.py: a shallow embedding and its properties

    The script loads season-to-date NHL team statistics from the public web
    API and upserts one row per team into [nhl_team_stats].  This file embeds
    the script function by function (same names, same order) and proves the
    properties its specification states.

    Conventions.
    - A Python [str] is a list of Unicode code points ([pystr]); [py] turns an
      ASCII literal into one.
    - A decoded JSON document is a [json]; a Python [dict] with string keys is
      a [gmap pystr json].  [None] is [JNull].
    - Statements that can raise are computations in the monad [M]: a state
      (database, connection, event log) is threaded and a result is either
      [Ok v] or [Raise e].
    - What the script only calls (the Unicode database, PostgreSQL's [lower]
      and [unaccent], the table DDL) is a parameter, see [PyUnicode] and
      [Postgres]. *)

From Stdlib Require Import ZArith NArith String Ascii Floats Lia ZifyBool.
From Stdlib Require Import DecimalString.
From stdpp Require Import gmap list.
From Equations Require Import Equations.

Set Warnings "-register-all".
Local Open Scope Z_scope.

(** ** Python values *)

Abbreviation pystr := (list N).

Fixpoint py (s : string) : pystr :=
  match s with
  | EmptyString => []
  | String a r => N_of_ascii a :: py r
  end.

(** [str(n)] for a Python [int], as an f-string renders it. *)
Definition str_of_int (z : Z) : pystr :=
  py (NilZero.string_of_int (Z.to_int z)).

Inductive json : Type :=
| JNull
| JBool (b : bool)
| JInt (z : Z)
| JFloat (f : float)
| JStr (s : pystr)
| JArr (l : list json)
| JObj (m : gmap pystr json).

(** Python truth value testing: [None], [False], zero of either numeric type,
    and empty strings, lists and dicts are false. *)
Definition truthy (v : json) : bool :=
  match v with
  | JNull => false
  | JBool b => b
  | JInt z => negb (z =? 0)
  | JFloat f => negb (PrimFloat.eqb f 0%float)
  | JStr s => match s with [] => false | _ => true end
  | JArr l => match l with [] => false | _ => true end
  | JObj m => negb (bool_decide (m = ∅))
  end.

(** [a or b] *)
Definition py_or (a b : json) : json := if truthy a then a else b.

(** [d.get(k)]: the value, or [None] when the key is absent. *)
Definition dict_get (d : gmap pystr json) (k : string) : json :=
  default JNull (d !! py k).

(** The exceptions the script can meet. *)
Inductive exn : Type :=
| KeyError (k : pystr)
| HTTPError (status : Z)       (* requests.HTTPError, from raise_for_status *)
| ConnectionError              (* requests: no response (network, timeout) *)
| JSONDecodeError              (* requests: the body is not JSON *)
| AttributeError
| TypeError
| DatabaseError.               (* psycopg2.Error *)

Inductive result (A : Type) : Type :=
| Ok (a : A)
| Raise (e : exn).
Arguments Ok {A} a.
Arguments Raise {A} e.

(** ** The environment the script runs in *)

Record date := { year : Z; month : Z; day : Z }.

(** A row of either table: column name to value.  SQL NULL is [JNull];
    a timestamp is [JInt] microseconds. *)
Abbreviation row := (gmap pystr json).

Record database := {
  nhl_teams : list row;        (* reference table: team_id, team_name *)
  nhl_team_stats : list row
}.

Inductive stmt : Type :=
| SqlCreateExtension
| SqlSelectTeam (team_name : json)
| SqlUpsert (params : gmap pystr json).

Inductive db_op : Type :=
| OpConnect (url : pystr)
| OpExecute (s : stmt)
| OpCommit.

Inductive event : Type :=
| EvHttpGet (url : pystr)
| EvDb (op : db_op)
| EvClose
| EvSleep
| EvPrint (line : pystr).

Inductive http_outcome : Type :=
| NoResponse                                   (* network failure, timeout *)
| Response (status : Z) (body : option json).  (* body: None if not JSON *)

(** Everything outside the process.  The oracles are indexed by the number of
    events logged so far, so that the same request can fare differently at
    different times. *)
Record world := {
  environ : gmap pystr pystr;
  today_et : date;             (* datetime.now(tz=America/New_York).date() *)
  txn_now : Z;                 (* now(): the transaction's start time *)
  http : nat → pystr → http_outcome;
  db_fault : nat → db_op → bool
}.

Record state := {
  persisted : database;        (* what a later session would read *)
  autocommit : bool;           (* conn.autocommit *)
  working : database;          (* what this session's transaction sees *)
  log : list event
}.

(** ** The state and exception monad *)

Definition M (A : Type) : Type := state → result A * state.

#[global] Instance M_ret : MRet M := fun A a st => (Ok a, st).

#[global] Instance M_bind : MBind M := fun A B k m st =>
  match m st with
  | (Ok a, st') => k a st'
  | (Raise e, st') => (Raise e, st')
  end.

Definition raise {A} (e : exn) : M A := fun st => (Raise e, st).

Definition lift {A} (r : result A) : M A := fun st => (r, st).

(** [try: m  except requests.HTTPError: h] *)
Definition except_HTTPError {A} (m : M A) (h : M A) : M A :=
  fun st =>
    match m st with
    | (Raise (HTTPError _), st') => h st'
    | other => other
    end.

Definition emit (e : event) : M unit :=
  fun st => (Ok tt, {| persisted := persisted st; autocommit := autocommit st;
                       working := working st; log := log st ++ [e] |}).

Definition set_log (l : list event) (st : state) : state :=
  {| persisted := persisted st; autocommit := autocommit st;
     working := working st; log := l |}.

(** ** What the script calls but does not define *)

(** The Python runtime's Unicode tables. *)
Class PyUnicode := {
  normalize_NFKD : pystr → pystr;   (* unicodedata.normalize("NFKD", s) *)
  combining : N → N;                (* unicodedata.combining(c) *)
  str_lower : pystr → pystr;        (* s.lower() *)
  str_upper : pystr → pystr         (* s.upper() *)
}.

(** The database server: the two SQL functions of the lookup, and the
    default of the column [nhl_team_stats.ingested_at] (the INSERT does not
    list that column; the table's DDL is not part of the repository), as a
    function of [now()]. *)
Class Postgres := {
  pg_lower : pystr → pystr;
  pg_unaccent : pystr → pystr;
  ingested_at_default : Z → json
}.

(** ** Pure helpers of the script *)

Fixpoint drop_while {A} (p : A → bool) (l : list A) : list A :=
  match l with
  | [] => []
  | x :: r => if p x then drop_while p r else l
  end.

Lemma drop_while_length {A} (p : A → bool) (l : list A) :
  (length (drop_while p l) <= length l)%nat.
Proof. induction l as [|x r IH]; simpl; [lia|]. destruct (p x); simpl; lia. Qed.

(** The character class [a-z0-9] of the slug pattern. *)
Definition is_az09 (c : N) : bool :=
  ((97 <=? c) && (c <=? 122) || (48 <=? c) && (c <=? 57))%N.

Definition underscore : N := 95%N.

(** [re.sub(r"[^a-z0-9]+", "_", s)]: scanning from the left, the longest
    non-empty match of the class at the current position is replaced by one
    underscore and the scan resumes after it; a character where no match
    starts is copied. *)
Equations? re_sub_runs (s : pystr) : pystr by wf (length s) lt :=
  re_sub_runs [] := [];
  re_sub_runs (c :: r) with is_az09 c := {
    | true := c :: re_sub_runs r;
    | false := underscore :: re_sub_runs (drop_while (fun x => negb (is_az09 x)) r) }.
Proof.
  pose proof (drop_while_length (fun x => negb (is_az09 x)) r). lia.
Qed.

(** [s.strip("_")] for a one-character argument: [lstrip] then [rstrip]. *)
Definition str_strip (ch : N) (s : pystr) : pystr :=
  reverse (drop_while (N.eqb ch) (reverse (drop_while (N.eqb ch) s))).

(** [for t in data]: what iterating a decoded JSON value yields. *)
Definition py_iter (data : json) : result (list json) :=
  match data with
  | JArr l => Ok l
  | JObj d => Ok (JStr <$> (map_to_list d).*1)
  | JStr s => Ok ((fun c => JStr [c]) <$> s)
  | _ => Raise TypeError
  end.

Record team := { code : pystr; name : json }.

Record config := { DB_URL : pystr; SEASON : option pystr }.

(** The key line 10 looks up in [os.environ]. *)
Definition DB_URL_KEY : pystr :=
  py "postgres://tsdbadmin:<TIMESCALE_DB_PASSWORD>@jbzime1eq9.rj87e4urof.tsdb.cloud.timescale.com:34545/tsdb?sslmode=require".

(** ** The UPSERT statement *)

(** The column list of [INSERT INTO nhl_team_stats (...)], which is also the
    list of named parameters of [VALUES (...)], in the statement's order. *)
Definition insert_cols : list pystr :=
  py <$> [ "team_id"; "season"; "gp"; "w"; "l"; "ties"; "ot"; "points"; "points_pct";
           "rw"; "row"; "so_wins"; "gf"; "ga"; "gf_per_gp"; "ga_per_gp";
           "pp_pct"; "pk_pct"; "net_pp_pct"; "net_pk_pct"; "shots_per_gp";
           "sa_per_gp"; "fow_pct"; "source" ]%string.

(** The columns assigned [EXCLUDED.col] by [DO UPDATE SET], in order. *)
Definition update_cols : list pystr :=
  py <$> [ "gp"; "w"; "l"; "ties"; "ot";
           "points"; "points_pct";
           "rw"; "row"; "so_wins";
           "gf"; "ga"; "gf_per_gp"; "ga_per_gp";
           "pp_pct"; "pk_pct";
           "net_pp_pct"; "net_pk_pct";
           "shots_per_gp"; "sa_per_gp"; "fow_pct";
           "source" ]%string.

(** psycopg2 binds each [%(c)s] from the dict and raises [KeyError] for a
    name the dict lacks; the row proposed for insertion has exactly the
    listed columns. *)
Fixpoint bind_params (cols : list pystr) (params : gmap pystr json) : result row :=
  match cols with
  | [] => Ok ∅
  | c :: cs =>
      match params !! c with
      | None => Raise (KeyError c)
      | Some v =>
          match bind_params cs params with
          | Ok r => Ok (<[c := v]> r)
          | Raise e => Raise e
          end
      end
  end.

(** Equality of two values, as values: same type, same content. *)
Definition list_eqb (f : json → json → bool) : list json → list json → bool :=
  fix go (a b : list json) {struct a} : bool :=
    match a, b with
    | [], [] => true
    | u :: a', v :: b' => f u v && go a' b'
    | _, _ => false
    end.

Fixpoint json_eqb (x y : json) {struct x} : bool :=
  match x, y with
  | JNull, JNull => true
  | JBool a, JBool b => bool_decide (a = b)
  | JInt a, JInt b => bool_decide (a = b)
  | JFloat a, JFloat b => PrimFloat.Leibniz.eqb a b
  | JStr a, JStr b => bool_decide (a = b)
  | JArr a, JArr b => list_eqb json_eqb a b
  | JObj a, JObj b =>
      bool_decide (dom a = dom b) &&
      map_fold (fun k u acc =>
                  match b !! k with
                  | Some v => json_eqb u v && acc
                  | None => false
                  end) true a
  | _, _ => false
  end.

(** The size of a value, on which the proofs about values go by induction. *)
Fixpoint json_size (x : json) : nat :=
  match x with
  | JArr l => S (foldr (fun u n => json_size u + n)%nat 0%nat l)
  | JObj m => S (map_fold (fun _ u n => json_size u + n)%nat 0%nat m)
  | _ => 1%nat
  end.

(** The conflict target is [(team_id, season)].  The script writes to
    [team_id] a slug, which is text, or whatever [nhl_teams.team_id] holds,
    which is of any type; the table's DDL is not in the repository.  The
    unique index compares what the column holds for the value passed, the
    column being text, as a slug requires, or of the identifiers' own type:
    - a text is held as it is;
    - an integer or a boolean written to a text column is held as its text
      ([6] as ['6'], [True] as ['true']), and that text written to a column
      of the value's own type is held as the value, so either way the value
      and its text are the same key;
    - a float is compared as a float, for which PostgreSQL has one zero and
      one NaN;
    - any other value is compared as it is.
    [key_value] is the value in the form the index compares. *)
Definition key_value (v : json) : json :=
  match v with
  | JInt z => JStr (str_of_int z)
  | JBool b => JStr (if b then py "true" else py "false")
  | JFloat f => if PrimFloat.eqb f 0%float then JFloat 0%float else JFloat f
  | _ => v
  end.

(** A NULL in a key column is not a key value: in a unique index a NULL
    never matches, not even another NULL. *)
Definition sql_key (v : option json) : option json :=
  match v with
  | None | Some JNull => None
  | Some v => Some (key_value v)
  end.

(** The key of a row, when it has one. *)
Definition row_key (r : row) : option (json * json) :=
  match sql_key (r !! py "team_id"), sql_key (r !! py "season") with
  | Some t, Some s => Some (t, s)
  | _, _ => None
  end.

(** The row proposed for insertion conflicts with an existing row when both
    have a key and the keys are equal. *)
Definition conflicts (proposed existing : row) : bool :=
  match row_key proposed, row_key existing with
  | Some (t, s), Some (t', s') => json_eqb t t' && json_eqb s s'
  | _, _ => false
  end.

(** [DO UPDATE SET c = EXCLUDED.c, ..., ingested_at = now()] on the row that
    conflicts; columns the SET list does not name keep their values. *)
Definition do_update (now : Z) (excluded existing : row) : row :=
  <[py "ingested_at" := JInt now]>
    (foldr (fun c r => <[c := default JNull (excluded !! c)]> r) existing update_cols).

Fixpoint on_conflict_update (now : Z) (proposed : row) (tbl : list row)
  : option (list row) :=
  match tbl with
  | [] => None
  | r :: rest =>
      if conflicts proposed r then Some (do_update now proposed r :: rest)
      else (cons r) <$> on_conflict_update now proposed rest
  end.

Section Script.
Context `{U : PyUnicode} `{P : Postgres}.
Variable w : world.

(** The row [INSERT ... VALUES] proposes: the bound parameters, and the
    column default for [ingested_at]. *)
Definition proposed_row (now : Z) (params : gmap pystr json) : result row :=
  match bind_params insert_cols params with
  | Ok r => Ok (<[py "ingested_at" := ingested_at_default now]> r)
  | Raise e => Raise e
  end.

(** [UPSERT_SQL] executed with [params] at time [now] on the table. *)
Definition UPSERT_SQL (now : Z) (params : gmap pystr json) (tbl : list row)
  : result (list row) :=
  match proposed_row now params with
  | Raise e => Raise e
  | Ok p =>
      match on_conflict_update now p tbl with
      | Some tbl' => Ok tbl'
      | None => Ok (tbl ++ [p])
      end
  end.

(** [WHERE lower(unaccent(team_name)) = lower(unaccent(%s))] *)
Definition name_matches (s : pystr) (r : row) : bool :=
  match r !! py "team_name" with
  | Some (JStr n) =>
      bool_decide (pg_lower (pg_unaccent n) = pg_lower (pg_unaccent s))
  | _ => false
  end.

(** What a statement returns (its result set, as tuples) and does to the
    database.  The SELECT's parameter has to be text for [unaccent]; for
    [None] the comparison is with NULL and selects no row. *)
Definition run_stmt (s : stmt) (db : database)
  : result (list (list json) * database) :=
  match s with
  | SqlCreateExtension => Ok ([], db)
  | SqlSelectTeam (JStr n) =>
      Ok ((fun r => [default JNull (r !! py "team_id")])
            <$> take 1 (base.filter (fun r => name_matches n r = true) (nhl_teams db)),
          db)
  | SqlSelectTeam JNull => Ok ([], db)
  | SqlSelectTeam _ => Raise DatabaseError
  | SqlUpsert params =>
      match UPSERT_SQL (txn_now w) params (nhl_team_stats db) with
      | Ok tbl => Ok ([], {| nhl_teams := nhl_teams db; nhl_team_stats := tbl |})
      | Raise e => Raise e
      end
  end.

(** *** The database driver *)

(** [psycopg2.connect(url)]: a new session, [autocommit] off by default. *)
Definition connect (url : pystr) : M unit := fun st =>
  let l := log st ++ [EvDb (OpConnect url)] in
  if db_fault w (length (log st)) (OpConnect url)
  then (Raise DatabaseError, set_log l st)
  else (Ok tt, {| persisted := persisted st; autocommit := false;
                  working := persisted st; log := l |}).

(** [conn.autocommit = b] *)
Definition set_autocommit (b : bool) : M unit := fun st =>
  (Ok tt, {| persisted := persisted st; autocommit := b;
             working := working st; log := log st |}).

(** [cur.execute(s)]; with [autocommit] on, a statement's effect is durable
    at once, otherwise it stays in the open transaction. *)
Definition cur_execute (s : stmt) : M (list (list json)) := fun st =>
  let l := log st ++ [EvDb (OpExecute s)] in
  if db_fault w (length (log st)) (OpExecute s)
  then (Raise DatabaseError, set_log l st)
  else match run_stmt s (working st) with
       | Raise e => (Raise e, set_log l st)
       | Ok (rows, db') =>
           (Ok rows, {| persisted := if autocommit st then db' else persisted st;
                        autocommit := autocommit st;
                        working := db'; log := l |})
       end.

(** [conn.commit()] *)
Definition commit : M unit := fun st =>
  let l := log st ++ [EvDb OpCommit] in
  if db_fault w (length (log st)) OpCommit
  then (Raise DatabaseError, set_log l st)
  else (Ok tt, {| persisted := working st; autocommit := autocommit st;
                  working := working st; log := l |}).

(** *** The script, function by function *)

(** [nhl_get]: [SESSION.get], [raise_for_status] (4xx and 5xx raise
    [HTTPError]), [r.json()]. *)
Definition nhl_get (url : pystr) : M json := fun st =>
  let st' := set_log (log st ++ [EvHttpGet url]) st in
  match http w (length (log st)) url with
  | NoResponse => (Raise ConnectionError, st')
  | Response status body =>
      if (400 <=? status) && (status <? 600) then (Raise (HTTPError status), st')
      else match body with
           | None => (Raise JSONDecodeError, st')
           | Some data => (Ok data, st')
           end
  end.

Definition infer_current_season (today : option date) : pystr :=
  let today := match today with Some d => d | None => today_et w end in
  let year := year today in
  let start_year := if month today <? 7 then year - 1 else year in
  str_of_int start_year ++ str_of_int (start_year + 1).

(** One turn of the loop of [fetch_active_teams]: the team to append, if any. *)
Definition team_of_entry (t : json) : result (option team) :=
  match t with
  | JObj d =>
      let tri := dict_get d "triCode" in
      let name := py_or (py_or (dict_get d "fullName") (dict_get d "name"))
                        (dict_get d "teamName") in
      if truthy tri && truthy name then
        match tri with
        | JStr s => Ok (Some {| code := str_lower s; name := name |})
        | _ => Raise AttributeError        (* tri.lower() *)
        end
      else Ok None
  | _ => Raise AttributeError              (* t.get *)
  end.

Fixpoint teams_loop (data : list json) (teams : list team) : result (list team) :=
  match data with
  | [] => Ok teams
  | t :: rest =>
      match team_of_entry t with
      | Ok (Some x) => teams_loop rest (teams ++ [x])
      | Ok None => teams_loop rest teams
      | Raise e => Raise e
      end
  end.

Definition fetch_active_teams : M (list team) :=
  data ← nhl_get (py "https://api-web.nhle.com/v1/teams");
  entries ← lift (py_iter data);
  lift (teams_loop entries []).

(** The dict literal [out] of [fetch_team_season_summary]. *)
Definition summary_of (data : gmap pystr json) : gmap pystr json :=
  list_to_map
    [ (py "gp", dict_get data "gamesPlayed");
      (py "w", dict_get data "wins");
      (py "l", dict_get data "losses");
      (py "ties", JNull);
      (py "ot", py_or (dict_get data "otLosses") (dict_get data "overtimeLosses"));
      (py "points", dict_get data "points");
      (py "points_pct", dict_get data "pointsPct");
      (py "rw", dict_get data "regulationWins");
      (py "row", py_or (dict_get data "regulationPlusOtWins") (dict_get data "row"));
      (py "so_wins", dict_get data "shootoutWins");
      (py "gf", dict_get data "goalsFor");
      (py "ga", dict_get data "goalsAgainst");
      (py "gf_per_gp", dict_get data "goalsForPerGame");
      (py "ga_per_gp", dict_get data "goalsAgainstPerGame");
      (py "pp_pct", dict_get data "powerPlayPct");
      (py "pk_pct", dict_get data "penaltyKillPct");
      (py "net_pp_pct", dict_get data "netPowerPlayPct");
      (py "net_pk_pct", dict_get data "netPenaltyKillPct");
      (py "shots_per_gp", dict_get data "shotsForPerGame");
      (py "sa_per_gp", dict_get data "shotsAgainstPerGame");
      (py "fow_pct", dict_get data "faceoffWinPct") ].

Definition club_stats_url (team_code season : pystr) : pystr :=
  py "https://api-web.nhle.com/v1/club-stats/" ++ str_upper team_code
    ++ py "/" ++ season ++ py "/2".

(** Only [nhl_get] is inside the [try]; the mapping is after it. *)
Definition fetch_team_season_summary (team_code season : pystr)
  : M (option (gmap pystr json)) :=
  got ← except_HTTPError (data ← nhl_get (club_stats_url team_code season);
                          mret (Some data))
                         (mret None);
  match got with
  | None => mret None
  | Some (JObj data) => mret (Some (summary_of data))
  | Some _ => raise AttributeError         (* data.get *)
  end.

Definition slug_from_name (name : pystr) : pystr :=
  let s := normalize_NFKD name in
  let s := base.filter (fun c => combining c = 0%N) s in
  let s := str_lower s in
  str_strip underscore (re_sub_runs s).

(** A non-text [team_name] fails in the SELECT already, so that
    [slug_from_name] only ever sees a [str]. *)
Definition team_id_from_db_or_slug (team_name : json) : M json :=
  rows ← cur_execute (SqlSelectTeam team_name);
  match head rows with                     (* row = cur.fetchone() *)
  | Some (id :: _) => mret id              (* if row: return row[0] *)
  | _ =>
      match team_name with
      | JStr n => mret (JStr (slug_from_name n))
      | _ => raise TypeError
      end
  end.

(** The dict [row] that [main] builds: later entries override earlier ones. *)
Definition stat_record (team_id : json) (season : pystr) (t : team)
    (summary : gmap pystr json) : gmap pystr json :=
  <[py "source" := JStr (py "api-web.nhle.com/" ++ code t ++ py "/" ++ season)]>
    (summary ∪ <[py "season" := JStr season]> (<[py "team_id" := team_id]> ∅)).

(** The body of [for t in teams], returning the new value of [upserts]. *)
Definition loop_body (season : pystr) (t : team) (upserts : nat) : M nat :=
  summary ← fetch_team_season_summary (code t) season;
  match summary with
  | None => mret upserts                   (* if not summary: continue *)
  | Some summary =>
      if bool_decide (summary = ∅) then mret upserts
      else
        team_id ← team_id_from_db_or_slug (name t);
        cur_execute (SqlUpsert (stat_record team_id season t summary));;
        emit EvSleep;;
        mret (S upserts)
  end.

Fixpoint for_teams (season : pystr) (teams : list team) (upserts : nat) : M nat :=
  match teams with
  | [] => mret upserts
  | t :: rest =>
      n ← loop_body season t upserts;
      for_teams season rest n
  end.

Definition summary_line (upserts : nat) (season : pystr) : pystr :=
  py "Upserted stats for " ++ str_of_int (Z.of_nat upserts)
    ++ py " teams for season " ++ season.

(** [SEASON or infer_current_season()] *)
Definition resolve_season (override : option pystr) (today : option date) : pystr :=
  match override with
  | Some (c :: s) => c :: s
  | _ => infer_current_season today
  end.

(** [main]; the value returned is [upserts], which the script prints. *)
Definition main (cfg : config) : M nat :=
  let season := resolve_season (SEASON cfg) None in
  connect (DB_URL cfg);;
  set_autocommit false;;
  cur_execute SqlCreateExtension;;
  teams ← fetch_active_teams;
  upserts ← for_teams season teams 0%nat;
  commit;;
  emit EvClose;;
  emit (EvPrint (summary_line upserts season));;
  mret upserts.

(** The module's top level: lines 10 and 11, then [main()]. *)
Definition module_init : result config :=
  match environ w !! DB_URL_KEY with
  | None => Raise (KeyError DB_URL_KEY)
  | Some url => Ok {| DB_URL := url; SEASON := environ w !! py "NHL_SEASON" |}
  end.

Definition program : M nat :=
  cfg ← lift module_init;
  main cfg.

End Script.

(** The statements of [main] before the loop, as a computation of their own
    (see [main_unfold]). *)
Definition main_prologue `{U : PyUnicode} `{P : Postgres} (w : world) (cfg : config)
  : M (list team) :=
  connect w (DB_URL cfg);;
  set_autocommit false;;
  cur_execute w SqlCreateExtension;;
  fetch_active_teams w.

(** ** A concrete runtime for closed examples

    [latin_unicode] agrees with CPython on ASCII text, on U+00E9 (e with
    acute) and on U+0301 (combining acute accent); it is used only on such
    text.  [plain_postgres] declares [ingested_at ... DEFAULT now()]. *)

Definition ascii_lower (c : N) : N :=
  if ((65 <=? c) && (c <=? 90))%N then (c + 32)%N else c.

Definition ascii_upper (c : N) : N :=
  if ((97 <=? c) && (c <=? 122))%N then (c - 32)%N else c.

Definition latin_decompose (c : N) : pystr :=
  if (c =? 233)%N then [101; 769]%N else [c].

Definition latin_unicode : PyUnicode := {|
  normalize_NFKD s := s ≫= latin_decompose;
  combining c := if (c =? 769)%N then 230%N else 0%N;
  str_lower s := ascii_lower <$> s;
  str_upper s := ascii_upper <$> s
|}.

Definition plain_postgres : Postgres := {|
  pg_lower s := ascii_lower <$> s;
  pg_unaccent s := base.filter (fun c => c ≠ 769%N) (s ≫= latin_decompose);
  ingested_at_default now := JInt now
|}.

Definition empty_db : database := {| nhl_teams := []; nhl_team_stats := [] |}.

Definition initial (db : database) : state :=
  {| persisted := db; autocommit := false; working := db; log := [] |}.

(** "Montréal Canadiens" *)
Definition montreal : pystr := py "Montr" ++ [233%N] ++ py "al Canadiens".

(** The world of the specification's end-to-end example: one team in the
    directory, four statistics published for it. *)
Definition boston_world : world := {|
  environ := {[ DB_URL_KEY := py "postgres://localhost/nhl" ]};
  today_et := {| year := 2025; month := 11; day := 3 |};
  txn_now := 1000;
  http := fun _ url =>
    if bool_decide (url = py "https://api-web.nhle.com/v1/teams") then
      Response 200 (Some (JArr [JObj (list_to_map
        [(py "triCode", JStr (py "BOS")); (py "fullName", JStr (py "Boston Bruins"))])]))
    else if bool_decide (url = py "https://api-web.nhle.com/v1/club-stats/BOS/20252026/2") then
      Response 200 (Some (JObj (list_to_map
        [(py "gamesPlayed", JInt 10); (py "wins", JInt 7);
         (py "losses", JInt 3); (py "points", JInt 14)])))
    else Response 404 None;
  db_fault := fun _ _ => false
|}.

(** ** The slug as the specification words it

    "Unicode-normalize the name, strip diacritical marks, lowercase, replace
    every run of non-alphanumeric characters with a single underscore, and
    trim leading/trailing underscores."  Alphanumeric is read as the ASCII
    letters and digits; a diacritical mark is a character of non-zero
    canonical combining class. *)

Definition is_alphanumeric (c : N) : bool :=
  (is_az09 c || (65 <=? c) && (c <=? 90))%N.

(** The string cut into its maximal runs of alphanumeric and of other
    characters, each tagged with its kind. *)
Fixpoint runs (p : N → bool) (s : pystr) : list (bool * pystr) :=
  match s with
  | [] => []
  | c :: r =>
      match runs p r with
      | (b, blk) :: rest =>
          if Bool.eqb (p c) b then (b, c :: blk) :: rest
          else (p c, [c]) :: (b, blk) :: rest
      | [] => [(p c, [c])]
      end
  end.

Definition replace_runs (p : N → bool) (s : pystr) : pystr :=
  runs p s ≫= (fun blk : bool * pystr => if blk.1 then blk.2 else [underscore]).

Fixpoint trim_trailing (ch : N) (s : pystr) : pystr :=
  match s with
  | [] => []
  | c :: r =>
      match trim_trailing ch r with
      | [] => if (c =? ch)%N then [] else [c]
      | r' => c :: r'
      end
  end.

Definition spec_slug `{U : PyUnicode} (name : pystr) : pystr :=
  let normalized := normalize_NFKD name in
  let unmarked := base.filter (fun c => combining c = 0%N) normalized in
  let lowered := str_lower unmarked in
  trim_trailing underscore
    (drop_while (N.eqb underscore) (replace_runs is_alphanumeric lowered)).

(** ** The directory entry as the specification words it

    An entry has a short code when [triCode] is a non-empty string, and a
    display name when one of [fullName], [name], [teamName] has a value that
    is true in Python's sense (not null, not empty); its name is the first of
    these in that order. *)

Definition short_code (d : gmap pystr json) : option pystr :=
  match dict_get d "triCode" with
  | JStr (c :: s) => Some (c :: s)
  | _ => None
  end.

Definition display_name (d : gmap pystr json) : option json :=
  head (List.filter truthy
          [dict_get d "fullName"; dict_get d "name"; dict_get d "teamName"]).

Definition spec_team `{U : PyUnicode} (entry : json) : option team :=
  match entry with
  | JObj d =>
      match short_code d, display_name d with
      | Some c, Some n => Some {| code := str_lower c; name := n |}
      | _, _ => None
      end
  | _ => None
  end.

(** A directory entry the fetcher can digest: an object whose [triCode], if
    it has a value at all, is a string. *)
Definition entry_typed (entry : json) : Prop :=
  match entry with
  | JObj d =>
      match dict_get d "triCode" with
      | JStr _ => True
      | v => truthy v = false
      end
  | _ => False
  end.

(** ** Properties of a slug *)

Definition slug_char (c : N) : bool := (is_az09 c || (c =? underscore))%N.

Fixpoint no_double_underscore (s : pystr) : bool :=
  match s with
  | a :: (b :: _) as r =>
      negb ((a =? underscore) && (b =? underscore))%N && no_double_underscore r
  | _ => true
  end.

Definition is_ascii (c : N) : bool := (c <? 128)%N.

(** What every CPython guarantees on ASCII text. *)
Definition ascii_faithful (U : PyUnicode) : Prop :=
  (∀ s, Forall (fun c => is_ascii c = true) s → normalize_NFKD s = s) ∧
  (∀ c, is_ascii c = true → combining c = 0%N) ∧
  (∀ s, Forall (fun c => is_ascii c = true) s → str_lower s = ascii_lower <$> s).

(** [str.lower] never yields an ASCII capital. *)
Definition lower_has_no_capital (U : PyUnicode) : Prop :=
  ∀ s c, c ∈ str_lower s → ((65 <=? c) && (c <=? 90))%N = false.

(** What CPython's tables say about the text "Montréal Canadiens". *)
Definition knows_montreal (U : PyUnicode) : Prop :=
  normalize_NFKD montreal = py "Montre" ++ [769%N] ++ py "al Canadiens" ∧
  combining 769%N ≠ 0%N ∧
  (∀ c, is_ascii c = true → combining c = 0%N) ∧
  str_lower (py "Montreal Canadiens") = py "montreal canadiens".

(** ** Predicates of the statements about the database *)

(** The unique index on [(team_id, season)]: no two rows with the same
    (non-null) key. *)
Definition unique_keys (tbl : list row) : Prop := NoDup (omap row_key tbl).

(** A computation that stays inside the open transaction: started with
    [autocommit] off, it leaves the persisted database alone, keeps
    [autocommit] off and does not commit. *)
Definition in_transaction {A} (m : M A) : Prop :=
  ∀ st r st',
    m st = (r, st') → autocommit st = false →
    persisted st' = persisted st ∧ autocommit st' = false ∧
    ∃ evs, log st' = log st ++ evs ∧ EvDb OpCommit ∉ evs.

(** A world where the club-stats endpoint answers 500 and one where it
    does not answer. *)
Definition server_error_world : world := {|
  environ := {[ DB_URL_KEY := py "postgres://localhost/nhl" ]};
  today_et := {| year := 2025; month := 11; day := 3 |};
  txn_now := 1000;
  http := fun _ url =>
    if bool_decide (url = py "https://api-web.nhle.com/v1/teams") then
      Response 200 (Some (JArr [JObj (list_to_map
        [(py "triCode", JStr (py "BOS")); (py "fullName", JStr (py "Boston Bruins"))])]))
    else Response 500 None;
  db_fault := fun _ _ => false
|}.

Definition unreachable_world : world := {|
  environ := {[ DB_URL_KEY := py "postgres://localhost/nhl" ]};
  today_et := {| year := 2025; month := 11; day := 3 |};
  txn_now := 1000;
  http := fun _ url =>
    if bool_decide (url = py "https://api-web.nhle.com/v1/teams") then
      Response 200 (Some (JArr [JObj (list_to_map
        [(py "triCode", JStr (py "BOS")); (py "fullName", JStr (py "Boston Bruins"))])]))
    else NoResponse;
  db_fault := fun _ _ => false
|}.

Definition boston : team := {| code := py "bos"; name := JStr (py "Boston Bruins") |}.

(** A world with an empty environment. *)
Definition bare_world : world := {|
  environ := ∅;
  today_et := {| year := 2025; month := 11; day := 3 |};
  txn_now := 1000;
  http := fun _ _ => NoResponse;
  db_fault := fun _ _ => false
|}.

(** A directory of 32 entries, the last of which has no name. *)
Definition named_entry : json :=
  JObj (list_to_map
    [(py "triCode", JStr (py "BOS")); (py "name", JStr (py "Boston Bruins"))]).

Definition nameless_entry : json :=
  JObj (list_to_map [(py "triCode", JStr (py "UTA")); (py "fullName", JNull)]).

Definition directory32 : list json := replicate 31 named_entry ++ [nameless_entry].

Definition directory32_world : world := {|
  environ := {[ DB_URL_KEY := py "postgres://localhost/nhl" ]};
  today_et := {| year := 2025; month := 11; day := 3 |};
  txn_now := 1000;
  http := fun _ _ => Response 200 (Some (JArr directory32));
  db_fault := fun _ _ => false
|}.

Definition local_config : config :=
  {| DB_URL := py "postgres://localhost/nhl"; SEASON := None |}.

(** The record [main] builds for Boston in [boston_world]. *)
Definition boston_record : gmap pystr json :=
  stat_record (JStr (py "boston_bruins")) (py "20252026") boston
    (summary_of (list_to_map
       [(py "gamesPlayed", JInt 10); (py "wins", JInt 7);
        (py "losses", JInt 3); (py "points", JInt 14)])).

(** The state of a run in [unreachable_world] when the loop starts. *)
Definition before_loop : state :=
  (main_prologue (U:=latin_unicode) (P:=plain_postgres)
     unreachable_world local_config (initial empty_db)).2.

(** Two teams in the directory; Boston's statistics are published, the
    request for Seattle's gets no response. *)
Definition second_team_unreachable_world : world := {|
  environ := {[ DB_URL_KEY := py "postgres://localhost/nhl" ]};
  today_et := {| year := 2025; month := 11; day := 3 |};
  txn_now := 1000;
  http := fun _ url =>
    if bool_decide (url = py "https://api-web.nhle.com/v1/teams") then
      Response 200 (Some (JArr
        [JObj (list_to_map
           [(py "triCode", JStr (py "BOS")); (py "fullName", JStr (py "Boston Bruins"))]);
         JObj (list_to_map
           [(py "triCode", JStr (py "SEA")); (py "fullName", JStr (py "Seattle Kraken"))])]))
    else if bool_decide (url = py "https://api-web.nhle.com/v1/club-stats/BOS/20252026/2") then
      Response 200 (Some (JObj (list_to_map
        [(py "gamesPlayed", JInt 10); (py "wins", JInt 7);
         (py "losses", JInt 3); (py "points", JInt 14)])))
    else NoResponse;
  db_fault := fun _ _ => false
|}.

Definition seattle : team := {| code := py "sea"; name := JStr (py "Seattle Kraken") |}.

(** The states of the run in that world: when the loop starts, after
    Boston's turn, and where Seattle's turn raises. *)
Definition loop_start : state :=
  (main_prologue (U:=latin_unicode) (P:=plain_postgres)
     second_team_unreachable_world local_config (initial empty_db)).2.

Definition after_boston : state :=
  (for_teams (U:=latin_unicode) (P:=plain_postgres) second_team_unreachable_world
     (py "20252026") [boston] 0%nat loop_start).2.

Definition at_seattle : state :=
  (loop_body (U:=latin_unicode) (P:=plain_postgres) second_team_unreachable_world
     (py "20252026") seattle 1%nat after_boston).2.

(** ** Further predicates and instances *)

(** The keys of the dict that [fetch_team_season_summary] returns. *)
Definition summary_keys : list pystr :=
  py <$> [ "gp"; "w"; "l"; "ties"; "ot"; "points"; "points_pct"; "rw"; "row";
           "so_wins"; "gf"; "ga"; "gf_per_gp"; "ga_per_gp"; "pp_pct"; "pk_pct";
           "net_pp_pct"; "net_pk_pct"; "shots_per_gp"; "sa_per_gp";
           "fow_pct" ]%string.

(** How a row may change from one moment to a later one: only in the
    columns that [DO UPDATE SET] assigns. *)
Definition row_evolves (r r' : row) : Prop :=
  ∀ c, c ∉ update_cols → c ≠ py "ingested_at" → r' !! c = r !! c.

(** How a table may change: every row stays at its place and evolves, new
    rows come after them, and the unique index stays respected. *)
Definition table_evolves (tbl tbl' : list row) : Prop :=
  (∃ kept added, tbl' = kept ++ added ∧ Forall2 row_evolves tbl kept) ∧
  (unique_keys tbl → unique_keys tbl').

Definition database_evolves (db db' : database) : Prop :=
  nhl_teams db' = nhl_teams db ∧
  table_evolves (nhl_team_stats db) (nhl_team_stats db').

(** A computation under which the session's view of the database evolves. *)
Definition working_evolves {A} (m : M A) : Prop :=
  ∀ st r st', m st = (r, st') → database_evolves (working st) (working st').

(** Counting the events of a kind in a log. *)
Definition is_upsert (e : event) : bool :=
  match e with EvDb (OpExecute (SqlUpsert _)) => true | _ => false end.

Definition is_http_get (e : event) : bool :=
  match e with EvHttpGet _ => true | _ => false end.

Definition is_sleep (e : event) : bool :=
  match e with EvSleep => true | _ => false end.

Definition count_events (p : event → bool) (l : list event) : nat :=
  length (List.filter p l).

(** The same world with another calendar date: what [datetime.now(ET)]
    returns is [d]; the environment, the answers of the web API, the
    behaviour of the database and the transaction time [now()] are those of
    [w]. *)
Definition on_date (d : date) (w : world) : world :=
  {| environ := environ w; today_et := d; txn_now := txn_now w;
     http := http w; db_fault := db_fault w |}.

Definition is_digit (c : N) : bool := ((48 <=? c) && (c <=? 57))%N.

(** The years whose decimal form has four digits. *)
Definition four_digit_years : list Z := seqZ 1000 9000.

(** A directory entry on which the loop of [fetch_active_teams] raises: not
    an object, or an object with a name whose [triCode] is true in Python's
    sense without being a string. *)
Definition entry_raises (entry : json) : bool :=
  match entry with
  | JObj d =>
      match dict_get d "triCode" with
      | JStr _ => false
      | tri =>
          truthy tri &&
          truthy (py_or (py_or (dict_get d "fullName") (dict_get d "name"))
                        (dict_get d "teamName"))
      end
  | _ => true
  end.

Definition four_digits (y : Z) : bool :=
  (length (str_of_int y) =? 4)%nat && forallb is_digit (str_of_int y).

(** [boston_world] with a season override in the environment, on a date
    from which another season would be inferred. *)
Definition override_world : world := {|
  environ := <[ py "NHL_SEASON" := py "20252026" ]>
               {[ DB_URL_KEY := py "postgres://localhost/nhl" ]};
  today_et := {| year := 1999; month := 1; day := 1 |};
  txn_now := txn_now boston_world;
  http := http boston_world;
  db_fault := db_fault boston_world
|}.

(** A reference table with one row for Boston, and a session that sees it. *)
Definition reference_db : database := {|
  nhl_teams := [ <[ py "team_id" := JStr (py "BOS") ]>
                   {[ py "team_name" := JStr (py "Boston Bruins") ]} ];
  nhl_team_stats := []
|}.

(** A world whose directory endpoint answers 503, and one where the
    database refuses the connection. *)
Definition directory_down_world : world := {|
  environ := {[ DB_URL_KEY := py "postgres://localhost/nhl" ]};
  today_et := {| year := 2025; month := 11; day := 3 |};
  txn_now := 1000;
  http := fun _ _ => Response 503 None;
  db_fault := fun _ _ => false
|}.

Definition database_down_world : world := {|
  environ := {[ DB_URL_KEY := py "postgres://localhost/nhl" ]};
  today_et := {| year := 2025; month := 11; day := 3 |};
  txn_now := 1000;
  http := http boston_world;
  db_fault := fun _ _ => true
|}.

(** A directory whose second entry has a number for [triCode]. *)
Definition numeric_code_entry : json :=
  JObj (list_to_map [(py "triCode", JInt 6); (py "fullName", JStr (py "Boston Bruins"))]).

Definition numeric_code_world : world := {|
  environ := {[ DB_URL_KEY := py "postgres://localhost/nhl" ]};
  today_et := {| year := 2025; month := 11; day := 3 |};
  txn_now := 1000;
  http := fun _ _ => Response 200 (Some (JArr [named_entry; numeric_code_entry]));
  db_fault := fun _ _ => false
|}.

(** A world with two teams in the directory and no statistics published. *)
Definition preseason_world : world := {|
  environ := {[ DB_URL_KEY := py "postgres://localhost/nhl" ]};
  today_et := {| year := 2025; month := 9; day := 1 |};
  txn_now := 1000;
  http := fun _ url =>
    if bool_decide (url = py "https://api-web.nhle.com/v1/teams") then
      Response 200 (Some (JArr [named_entry; named_entry]))
    else Response 404 None;
  db_fault := fun _ _ => false
|}.

(** The statistics object that [boston_world] publishes for Boston. *)
Definition boston_stats : gmap pystr json :=
  list_to_map [(py "gamesPlayed", JInt 10); (py "wins", JInt 7);
               (py "losses", JInt 3); (py "points", JInt 14)].

(** A record whose identifier is an integer, as the resolver returns it
    when [nhl_teams.team_id] is an integer column; the row it leaves when
    inserted at time 1000; and the same record with the identifier as text. *)
Definition integer_id_record : gmap pystr json :=
  stat_record (JInt 6) (py "20252026") boston (summary_of boston_stats).

Definition integer_id_row : row :=
  <[py "ingested_at" := JInt 1000]> integer_id_record.

Definition text_id_record : gmap pystr json :=
  stat_record (JStr (py "6")) (py "20252026") boston (summary_of ∅).

(** * Part II: proofs *)

(** ** Equality of values is decidable *)

Lemma json_eqb_arr (a b : list json) :
  json_eqb (JArr a) (JArr b) = list_eqb json_eqb a b.
Proof. reflexivity. Qed.

Lemma json_eqb_obj (a b : gmap pystr json) :
  json_eqb (JObj a) (JObj b) =
    bool_decide (dom a = dom b) &&
    map_fold (fun k u acc =>
                match b !! k with
                | Some v => json_eqb u v && acc
                | None => false
                end) true a.
Proof. reflexivity. Qed.

Lemma json_size_arr (l : list json) :
  json_size (JArr l) = S (foldr (fun u n => json_size u + n)%nat 0%nat l).
Proof. reflexivity. Qed.

Lemma json_size_obj (m : gmap pystr json) :
  json_size (JObj m) = S (map_fold (fun _ u n => json_size u + n)%nat 0%nat m).
Proof. reflexivity. Qed.

Lemma json_size_elem (l : list json) (u : json) :
  u ∈ l → (json_size u < json_size (JArr l))%nat.
Proof.
  rewrite json_size_arr. induction l as [|v l IH]; [by intros ?%elem_of_nil|].
  intros [->|Hin]%elem_of_cons; cbn [foldr]; [lia|]. specialize (IH Hin). lia.
Qed.

Lemma json_size_lookup (m : gmap pystr json) (k : pystr) (u : json) :
  m !! k = Some u → (json_size u < json_size (JObj m))%nat.
Proof.
  rewrite json_size_obj.
  enough (∀ k u, m !! k = Some u →
            (json_size u ≤ map_fold (fun _ u n => json_size u + n)%nat 0%nat m)%nat)
    as H by (intros H'%H; lia).
  apply (map_fold_weak_ind
           (fun n (m : gmap pystr json) =>
              ∀ k u, m !! k = Some u → (json_size u ≤ n)%nat)).
  - intros k' u'. by rewrite lookup_empty.
  - intros i x m' r Hi IH k' u'. destruct (decide (k' = i)) as [->|Hne].
    + rewrite lookup_insert_eq. intros [= ->]. lia.
    + rewrite lookup_insert_ne by done. intros H'%IH. lia.
Qed.

Lemma list_eqb_spec (f : json → json → bool) (a b : list json) :
  (∀ u, u ∈ a → ∀ v, f u v = true ↔ u = v) →
  list_eqb f a b = true ↔ a = b.
Proof.
  revert b. induction a as [|u a IH]; intros [|v b] Hf; simpl; try done.
  rewrite andb_true_iff, (Hf u) by (by left).
  rewrite IH by (intros u' Hu'; apply Hf; by right).
  split; [by intros [-> ->]|by intros [= -> ->]].
Qed.

Lemma map_fold_all (f : json → json → bool) (a b : gmap pystr json) :
  map_fold (fun k u acc =>
              match b !! k with
              | Some v => f u v && acc
              | None => false
              end) true a = true ↔
  ∀ k u, a !! k = Some u → ∃ v, b !! k = Some v ∧ f u v = true.
Proof.
  apply (map_fold_weak_ind
           (fun r (m : gmap pystr json) =>
              r = true ↔
              ∀ k u, m !! k = Some u → ∃ v, b !! k = Some v ∧ f u v = true)).
  - split; [|done]. intros _ k u. by rewrite lookup_empty.
  - intros i x m r Hi IH. split.
    + destruct (b !! i) as [v|] eqn:Hb; [|done].
      intros [Hx Hr]%andb_true_iff k u. destruct (decide (k = i)) as [->|Hne].
      * rewrite lookup_insert_eq. intros [= <-]. eauto.
      * rewrite lookup_insert_ne by done. by apply IH.
    + intros H. destruct (H i x) as (v & -> & Hv); [by rewrite lookup_insert_eq|].
      rewrite Hv. simpl. apply IH. intros k u Hk. apply H.
      rewrite lookup_insert_ne; [done|]. intros <-. congruence.
Qed.

Lemma json_eqb_spec (x y : json) : json_eqb x y = true ↔ x = y.
Proof.
  remember (json_size x) as n eqn:Hn. revert x y Hn.
  induction (lt_wf n) as [n _ IH]. intros x y ->.
  destruct x, y; try (split; [discriminate|congruence]); try done.
  - simpl. rewrite bool_decide_eq_true. split; congruence.
  - simpl. rewrite bool_decide_eq_true. split; congruence.
  - simpl. rewrite FloatAxioms.Leibniz.eqb_spec. split; congruence.
  - simpl. rewrite bool_decide_eq_true. split; congruence.
  - rewrite json_eqb_arr, list_eqb_spec; [split; congruence|].
    intros u Hu v. by apply (IH _ (json_size_elem _ _ Hu)).
  - rewrite json_eqb_obj, andb_true_iff, bool_decide_eq_true, map_fold_all.
    split; [|intros [= ->]].
    + intros [Hdom Hall]. f_equal. apply map_eq. intros k.
      destruct (m !! k) as [u|] eqn:Hk.
      * destruct (Hall k u Hk) as (v & -> & Hv). f_equal.
        by apply (IH _ (json_size_lookup _ _ _ Hk) u v eq_refl).
      * apply not_elem_of_dom in Hk. rewrite Hdom in Hk.
        by apply not_elem_of_dom in Hk.
    + split; [done|]. intros k u Hk. exists u. split; [done|].
      by apply (IH _ (json_size_lookup _ _ _ Hk) u u eq_refl).
Qed.

Lemma json_eq_dec : EqDecision json.
Proof.
  intros x y. destruct (json_eqb x y) eqn:E.
  - left. by apply json_eqb_spec.
  - right. intros H. apply json_eqb_spec in H. congruence.
Defined.

#[global] Existing Instance json_eq_dec.

(** ** The pattern substitution and the trimming *)

Lemma re_sub_runs_cons (c : N) (s : pystr) :
  re_sub_runs (c :: s) =
    if is_az09 c then c :: re_sub_runs s
    else match s with
         | c' :: _ => if is_az09 c' then underscore :: re_sub_runs s else re_sub_runs s
         | [] => [underscore]
         end.
Proof.
  simp re_sub_runs. destruct (is_az09 c) eqn:Hc; simpl; [done|].
  destruct s as [|c' r]; simpl.
  - by simp re_sub_runs.
  - destruct (is_az09 c') eqn:Hc'; simpl; [done|].
    simp re_sub_runs. by rewrite Hc'.
Qed.

Lemma runs_head (p : N → bool) (c : N) (s : pystr) :
  ∃ blk rest, runs p (c :: s) = (p c, c :: blk) :: rest.
Proof.
  simpl. destruct (runs p s) as [|[b blk] rest]; [by eexists _, _|].
  destruct (Bool.eqb (p c) b) eqn:E.
  - apply Bool.eqb_prop in E. subst b. by eexists _, _.
  - by eexists _, _.
Qed.

Lemma replace_runs_cons (p : N → bool) (c : N) (s : pystr) :
  replace_runs p (c :: s) =
    if p c then c :: replace_runs p s
    else match s with
         | c' :: _ => if p c' then underscore :: replace_runs p s else replace_runs p s
         | [] => [underscore]
         end.
Proof.
  unfold replace_runs. destruct s as [|c' r].
  - simpl. by destruct (p c).
  - destruct (runs_head p c' r) as (blk & rest & E).
    change (runs p (c :: c' :: r)) with
      (match runs p (c' :: r) with
       | (b, blk) :: rest =>
           if Bool.eqb (p c) b then (b, c :: blk) :: rest
           else (p c, [c]) :: (b, blk) :: rest
       | [] => [(p c, [c])]
       end).
    rewrite E. destruct (p c) eqn:Hc, (p c') eqn:Hc'; simpl; by rewrite ?Hc.
Qed.

Lemma replace_runs_ext (p q : N → bool) (s : pystr) :
  Forall (fun c => p c = q c) s → replace_runs p s = replace_runs q s.
Proof.
  induction 1 as [|c s Hc Hs IH]; [done|].
  rewrite !replace_runs_cons, Hc, IH.
  destruct Hs as [|c' s' Hc' _]; [done|]. by rewrite Hc'.
Qed.

(** The scan of the pattern and the replacement of maximal runs agree. *)
Lemma re_sub_runs_replace_runs (s : pystr) :
  re_sub_runs s = replace_runs is_az09 s.
Proof.
  induction s as [|c s IH]; [done|].
  by rewrite re_sub_runs_cons, replace_runs_cons, IH.
Qed.

Lemma re_sub_runs_alphabet (s : pystr) :
  Forall (fun c => slug_char c = true) (re_sub_runs s).
Proof.
  induction s as [|c s IH]; [by simp re_sub_runs|].
  rewrite re_sub_runs_cons. destruct (is_az09 c) eqn:Hc.
  - constructor; [|done]. unfold slug_char. by rewrite Hc.
  - destruct s as [|c' r]; [by repeat constructor|].
    destruct (is_az09 c'); [|done]. by constructor.
Qed.

Lemma re_sub_runs_head (c : N) (s : pystr) :
  is_az09 c = true → head (re_sub_runs (c :: s)) = Some c.
Proof. intros Hc. by rewrite re_sub_runs_cons, Hc. Qed.

Lemma is_az09_not_underscore (c : N) : is_az09 c = true → (c =? underscore)%N = false.
Proof. intros Hc. apply N.eqb_neq. intros ->. by vm_compute in Hc. Qed.

Lemma re_sub_runs_no_double (s : pystr) :
  no_double_underscore (re_sub_runs s) = true.
Proof.
  induction s as [|c s IH]; [by simp re_sub_runs|].
  rewrite re_sub_runs_cons. destruct (is_az09 c) eqn:Hc.
  - simpl. destruct (re_sub_runs s) eqn:E; [done|].
    rewrite IH, (is_az09_not_underscore c Hc). done.
  - destruct s as [|c' r]; [done|].
    destruct (is_az09 c') eqn:Hc'; [|done].
    pose proof (re_sub_runs_head c' r Hc') as Hh.
    destruct (re_sub_runs (c' :: r)) as [|x y] eqn:E; [done|].
    simpl in Hh. injection Hh as ->.
    change (negb ((underscore =? underscore)%N && (c' =? underscore)%N)
            && no_double_underscore (c' :: y) = true).
    by rewrite IH, (is_az09_not_underscore c' Hc').
Qed.

Lemma no_double_underscore_tail (a : N) (s : pystr) :
  no_double_underscore (a :: s) = true → no_double_underscore s = true.
Proof. destruct s; [done|]. simpl. by intros [_ ?]%andb_prop. Qed.

Lemma drop_while_no_double (p : N → bool) (s : pystr) :
  no_double_underscore s = true → no_double_underscore (drop_while p s) = true.
Proof.
  induction s as [|c s IH]; [done|]. intros Hs. simpl.
  destruct (p c); [|done]. eauto using no_double_underscore_tail.
Qed.

Lemma drop_while_Forall {A} (P : A → Prop) (p : A → bool) (l : list A) :
  Forall P l → Forall P (drop_while p l).
Proof. induction 1 as [|x l Hx Hl IH]; simpl; [done|]. destruct (p x); auto. Qed.

Lemma drop_while_head (ch : N) (s : pystr) :
  head (drop_while (N.eqb ch) s) ≠ Some ch.
Proof.
  induction s as [|c s IH]; [done|]. simpl.
  destruct (N.eqb_spec ch c) as [->|Hne]; [done|]. simpl. congruence.
Qed.

Lemma drop_while_id (ch : N) (s : pystr) :
  head s ≠ Some ch → drop_while (N.eqb ch) s = s.
Proof.
  destruct s as [|c s]; [done|]. simpl. intros Hh.
  destruct (N.eqb_spec ch c) as [->|Hne]; [by destruct Hh|done].
Qed.

Lemma drop_while_snoc {A} (p : A → bool) (l : list A) (x : A) :
  drop_while p (l ++ [x]) =
    match drop_while p l with
    | [] => if p x then [] else [x]
    | l' => l' ++ [x]
    end.
Proof.
  induction l as [|a l IH]; simpl; [done|].
  destruct (p a); [done|]. done.
Qed.

(** [rstrip] by reversal is the structural trimming. *)
Lemma rstrip_trim_trailing (ch : N) (s : pystr) :
  reverse (drop_while (N.eqb ch) (reverse s)) = trim_trailing ch s.
Proof.
  induction s as [|c s IH]; [done|].
  rewrite reverse_cons, drop_while_snoc. simpl. rewrite <- IH.
  destruct (drop_while (N.eqb ch) (reverse s)) as [|x l] eqn:E.
  - rewrite reverse_nil, (N.eqb_sym c ch). by destruct (ch =? c)%N.
  - change (x :: l ++ [c]) with ((x :: l) ++ [c]).
    rewrite reverse_app, reverse_singleton. simpl.
    destruct (reverse (x :: l)) eqn:E'; [|done].
    apply (f_equal reverse) in E'. by rewrite reverse_involutive in E'.
Qed.

Lemma str_strip_trim (ch : N) (s : pystr) :
  str_strip ch s = trim_trailing ch (drop_while (N.eqb ch) s).
Proof. apply rstrip_trim_trailing. Qed.

Lemma trim_trailing_head (ch : N) (s : pystr) (x : N) (y : pystr) :
  trim_trailing ch s = x :: y → ∃ s', s = x :: s'.
Proof.
  destruct s as [|c s]; [done|]. simpl.
  destruct (trim_trailing ch s); [destruct (c =? ch)%N|]; intros [= <- _]; eauto.
Qed.

Lemma trim_trailing_Forall (P : N → Prop) (ch : N) (s : pystr) :
  Forall P s → Forall P (trim_trailing ch s).
Proof.
  induction 1 as [|c s Hc Hs IH]; simpl; [done|].
  destruct (trim_trailing ch s); [destruct (c =? ch)%N|]; auto.
Qed.

Lemma trim_trailing_no_double (ch : N) (s : pystr) :
  no_double_underscore s = true → no_double_underscore (trim_trailing ch s) = true.
Proof.
  induction s as [|c s IH]; [done|]. intros Hs. simpl.
  destruct (trim_trailing ch s) as [|x y] eqn:E; [by destruct (c =? ch)%N|].
  destruct (trim_trailing_head _ _ _ _ E) as [s' ->].
  change (negb ((c =? underscore)%N && (x =? underscore)%N)
          && no_double_underscore (x :: y) = true).
  simpl in Hs. apply andb_prop in Hs as [-> Hs]. by rewrite IH.
Qed.

Lemma trim_trailing_last (ch : N) (s : pystr) :
  last (trim_trailing ch s) ≠ Some ch.
Proof.
  induction s as [|c s IH]; [done|]. simpl.
  destruct (trim_trailing ch s) as [|x y] eqn:E.
  - destruct (N.eqb_spec c ch); [done|]. simpl. congruence.
  - by rewrite last_cons_cons.
Qed.

Lemma trim_trailing_id (ch : N) (s : pystr) :
  last s ≠ Some ch → trim_trailing ch s = s.
Proof.
  induction s as [|c s IH]; [done|]. simpl. intros Hl.
  destruct s as [|c' s'].
  - simpl. destruct (N.eqb_spec c ch) as [->|]; [by destruct Hl|done].
  - rewrite last_cons_cons in Hl. by rewrite IH.
Qed.

(** A string over the slug alphabet without doubled underscores has no
    match of the pattern longer than one underscore. *)
Lemma re_sub_runs_id (s : pystr) :
  Forall (fun c => slug_char c = true) s →
  no_double_underscore s = true →
  re_sub_runs s = s.
Proof.
  induction 1 as [|c s Hc Hs IH]; [by simp re_sub_runs|]. intros Hd.
  rewrite re_sub_runs_cons, IH by eauto using no_double_underscore_tail.
  destruct (is_az09 c) eqn:Ec; [done|].
  assert (c = underscore) as ->.
  { unfold slug_char in Hc. rewrite Ec in Hc. by apply N.eqb_eq. }
  destruct Hs as [|c' s' Hc' _]; [done|].
  destruct (is_az09 c') eqn:Ec'; [done|].
  unfold slug_char in Hc'. rewrite Ec' in Hc'. simpl in Hc', Hd.
  by rewrite Hc' in Hd.
Qed.

Lemma no_double_underscore_spec (s l1 l2 : pystr) :
  no_double_underscore s = true → s ≠ l1 ++ [underscore; underscore] ++ l2.
Proof.
  revert s. induction l1 as [|a l1 IH]; intros s Hs ->.
  - done.
  - apply (IH _ (no_double_underscore_tail _ _ Hs) eq_refl).
Qed.

Lemma slug_char_ascii (c : N) : slug_char c = true → is_ascii c = true.
Proof. unfold slug_char, is_az09, is_ascii, underscore. lia. Qed.

Lemma slug_char_lower (c : N) : slug_char c = true → ascii_lower c = c.
Proof.
  unfold slug_char, is_az09, ascii_lower, underscore. intros Hc.
  destruct ((65 <=? c)%N && (c <=? 90)%N) eqn:E; [lia|done].
Qed.

(** ** The slug *)

Lemma slug_from_name_trim `{U : PyUnicode} (name : pystr) :
  slug_from_name name =
    trim_trailing underscore (drop_while (N.eqb underscore)
      (re_sub_runs (str_lower (base.filter (fun c => combining c = 0%N)
                                 (normalize_NFKD name))))).
Proof. apply str_strip_trim. Qed.

Lemma filter_combining_ascii `{U : PyUnicode} (s : pystr) :
  (∀ c, is_ascii c = true → combining c = 0%N) →
  Forall (fun c => is_ascii c = true) s →
  base.filter (fun c => combining c = 0%N) s = s.
Proof.
  intros Hc. induction 1 as [|c s Hs _ IH]; [done|].
  rewrite filter_cons_True by auto. by rewrite IH.
Qed.

Lemma slug_from_name_fixed `{U : PyUnicode} (s : pystr) :
  ascii_faithful U →
  Forall (fun c => slug_char c = true) s →
  no_double_underscore s = true →
  head s ≠ Some underscore →
  last s ≠ Some underscore →
  slug_from_name s = s.
Proof.
  intros (Hn & Hc & Hl) Hs Hd Hh Ht.
  assert (Forall (fun c => is_ascii c = true) s) as Ha.
  { eapply Forall_impl; [exact Hs|]. apply slug_char_ascii. }
  rewrite slug_from_name_trim, Hn, filter_combining_ascii, Hl by done.
  assert (ascii_lower <$> s = s) as ->.
  { clear -Hs. induction Hs as [|c s Hc _ IH]; [done|].
    by rewrite fmap_cons, IH, slug_char_lower. }
  by rewrite re_sub_runs_id, drop_while_id, trim_trailing_id.
Qed.

Lemma slug_from_name_spec_slug `{U : PyUnicode} (name : pystr) :
  lower_has_no_capital U → slug_from_name name = spec_slug name.
Proof.
  intros Hl. rewrite slug_from_name_trim. unfold spec_slug.
  rewrite re_sub_runs_replace_runs. do 2 f_equal.
  apply replace_runs_ext, Forall_forall. intros c Hc.
  unfold is_alphanumeric. rewrite (Hl _ _ Hc). by rewrite orb_false_r.
Qed.

Lemma slug_from_name_montreal `{U : PyUnicode} :
  knows_montreal U → slug_from_name montreal = py "montreal_canadiens".
Proof.
  intros (Hn & Hm & Hc & Hl). unfold slug_from_name. rewrite Hn.
  rewrite !filter_app, filter_cons_False, filter_nil by (intros E; by apply Hm).
  rewrite !filter_combining_ascii by (try done; by repeat constructor).
  change (py "Montre" ++ [] ++ py "al Canadiens") with (py "Montreal Canadiens").
  rewrite Hl. by vm_compute.
Qed.

Lemma latin_unicode_ascii_faithful : ascii_faithful latin_unicode.
Proof.
  assert (∀ s, Forall (fun c => is_ascii c = true) s → s ≫= latin_decompose = s) as Hd.
  { induction 1 as [|c s Hc _ IH]; [done|].
    rewrite bind_cons, IH. unfold latin_decompose, is_ascii in *.
    destruct (N.eqb_spec c 233); [lia|done]. }
  split_and!; [exact Hd| |done].
  intros c Hc. simpl. unfold is_ascii in Hc. destruct (N.eqb_spec c 769); [lia|done].
Qed.

Lemma latin_unicode_lower : lower_has_no_capital latin_unicode.
Proof.
  intros s c (x & -> & _)%list_elem_of_fmap. unfold ascii_lower.
  destruct ((65 <=? x)%N && (x <=? 90)%N) eqn:E; lia.
Qed.

Lemma latin_unicode_montreal : knows_montreal latin_unicode.
Proof.
  split_and!; [by vm_compute|by vm_compute| |by vm_compute].
  intros c Hc. simpl. unfold is_ascii in Hc. destruct (N.eqb_spec c 769); [lia|done].
Qed.

(** C10. For every input string the slug consists of ASCII lowercase
    letters, digits and underscores only, neither starts nor ends with an
    underscore and has no two underscores in a row; and [slug_from_name] is
    idempotent (on a runtime that is CPython on ASCII text). *)
Theorem slug_from_name_invariant `{U : PyUnicode} (name : pystr) :
  let slug := slug_from_name name in
  Forall (fun c => slug_char c = true) slug ∧
  head slug ≠ Some underscore ∧
  last slug ≠ Some underscore ∧
  (∀ l1 l2, slug ≠ l1 ++ [underscore; underscore] ++ l2) ∧
  (ascii_faithful U → slug_from_name slug = slug).
Proof.
  intros slug.
  assert (Forall (fun c => slug_char c = true) slug) as Ha.
  { unfold slug. rewrite slug_from_name_trim.
    apply trim_trailing_Forall, drop_while_Forall, re_sub_runs_alphabet. }
  assert (no_double_underscore slug = true) as Hd.
  { unfold slug. rewrite slug_from_name_trim.
    apply trim_trailing_no_double, drop_while_no_double, re_sub_runs_no_double. }
  assert (head slug ≠ Some underscore) as Hh.
  { unfold slug. rewrite slug_from_name_trim.
    destruct (trim_trailing _ _) as [|x y] eqn:E; [done|].
    destruct (trim_trailing_head _ _ _ _ E) as [s' Es'].
    pose proof (drop_while_head underscore
      (re_sub_runs (str_lower (base.filter (fun c => combining c = 0%N)
                                 (normalize_NFKD name))))) as Hx.
    rewrite Es' in Hx. exact Hx. }
  assert (last slug ≠ Some underscore) as Ht.
  { unfold slug. rewrite slug_from_name_trim. apply trim_trailing_last. }
  split_and!; [done|done|done| |].
  - intros l1 l2. by apply no_double_underscore_spec.
  - intros HU. by apply slug_from_name_fixed.
Qed.

Lemma slug_from_name_invariant_witness :
  ascii_faithful latin_unicode ∧
  slug_from_name (U:=latin_unicode) (slug_from_name (U:=latin_unicode) montreal)
    = slug_from_name (U:=latin_unicode) montreal.
Proof.
  split; [exact latin_unicode_ascii_faithful|].
  apply (slug_from_name_invariant (U:=latin_unicode) montreal).
  exact latin_unicode_ascii_faithful.
Defined.

(** ** The monad *)

Lemma bind_run {A B} (m : M A) (k : A → M B) (st : state) :
  (m ≫= k) st =
    match m st with
    | (Ok a, st') => k a st'
    | (Raise e, st') => (Raise e, st')
    end.
Proof. done. Qed.

Lemma bind_Ok {A B} (m : M A) (k : A → M B) (st st' : state) (a : A) :
  m st = (Ok a, st') → (m ≫= k) st = k a st'.
Proof. intros E. by rewrite bind_run, E. Qed.

Lemma bind_Raise {A B} (m : M A) (k : A → M B) (st st' : state) (e : exn) :
  m st = (Raise e, st') → (m ≫= k) st = (Raise e, st').
Proof. intros E. by rewrite bind_run, E. Qed.

Section Facts.
Context `{U : PyUnicode} `{P : Postgres}.
Variable w : world.

(** *** The fetchers touch nothing but the log *)

Lemma nhl_get_state (url : pystr) (st : state) :
  (nhl_get w url st).2 = set_log (log st ++ [EvHttpGet url]) st.
Proof.
  unfold nhl_get. destruct (http w _ url) as [|status body]; [done|].
  destruct (_ && _); [done|]. by destruct body.
Qed.

Lemma fetch_team_season_summary_state (team_code season : pystr) (st : state) :
  (fetch_team_season_summary w team_code season st).2 =
    set_log (log st ++ [EvHttpGet (club_stats_url team_code season)]) st.
Proof.
  unfold fetch_team_season_summary. rewrite bind_run. unfold except_HTTPError.
  rewrite bind_run.
  pose proof (nhl_get_state (club_stats_url team_code season) st) as Hs.
  destruct (nhl_get w _ st) as [[data|e] st1]; simpl in Hs; subst st1.
  - by destruct data.
  - by destruct e.
Qed.

Lemma fetch_team_season_summary_status (team_code season : pystr) (st : state)
    (status : Z) (body : option json) :
  http w (length (log st)) (club_stats_url team_code season) = Response status body →
  400 ≤ status < 600 →
  fetch_team_season_summary w team_code season st =
    (Ok None, set_log (log st ++ [EvHttpGet (club_stats_url team_code season)]) st).
Proof.
  intros Hh Hs. unfold fetch_team_season_summary, except_HTTPError.
  rewrite !bind_run. unfold nhl_get. rewrite Hh.
  assert ((400 <=? status) && (status <? 600) = true) as -> by lia. done.
Qed.

Lemma fetch_team_season_summary_no_response (team_code season : pystr) (st : state) :
  http w (length (log st)) (club_stats_url team_code season) = NoResponse →
  fetch_team_season_summary w team_code season st =
    (Raise ConnectionError,
     set_log (log st ++ [EvHttpGet (club_stats_url team_code season)]) st).
Proof.
  intros Hh. unfold fetch_team_season_summary, except_HTTPError.
  rewrite !bind_run. unfold nhl_get. by rewrite Hh.
Qed.

Lemma fetch_team_season_summary_not_json (team_code season : pystr) (st : state)
    (status : Z) :
  http w (length (log st)) (club_stats_url team_code season) = Response status None →
  ¬ (400 ≤ status < 600) →
  fetch_team_season_summary w team_code season st =
    (Raise JSONDecodeError,
     set_log (log st ++ [EvHttpGet (club_stats_url team_code season)]) st).
Proof.
  intros Hh Hs. unfold fetch_team_season_summary, except_HTTPError.
  rewrite !bind_run. unfold nhl_get. rewrite Hh.
  assert ((400 <=? status) && (status <? 600) = false) as -> by lia. done.
Qed.

(** *** The loop *)

Lemma loop_body_skip (season : pystr) (t : team) (n : nat) (st : state) :
  (fetch_team_season_summary w (code t) season st).1 = Ok None ∨
  (fetch_team_season_summary w (code t) season st).1 = Ok (Some ∅) →
  loop_body w season t n st =
    (Ok n, set_log (log st ++ [EvHttpGet (club_stats_url (code t) season)]) st).
Proof.
  intros Hf. unfold loop_body. rewrite bind_run.
  pose proof (fetch_team_season_summary_state (code t) season st) as Hs.
  destruct (fetch_team_season_summary w (code t) season st) as [r st1].
  simpl in Hf, Hs. subst st1. by destruct Hf as [-> | ->].
Qed.

Lemma loop_body_raise_in_fetch (season : pystr) (t : team) (n : nat)
    (st st' : state) (e : exn) :
  fetch_team_season_summary w (code t) season st = (Raise e, st') →
  loop_body w season t n st = (Raise e, st').
Proof. intros Hf. unfold loop_body. by rewrite (bind_Raise _ _ _ _ _ Hf). Qed.

Lemma for_teams_app (season : pystr) (pre post : list team) (n : nat) (st : state) :
  for_teams w season (pre ++ post) n st =
    (for_teams w season pre n ≫= for_teams w season post) st.
Proof.
  revert n st. induction pre as [|t pre IH]; intros n st; [done|].
  simpl. rewrite !bind_run.
  destruct (loop_body w season t n st) as [[n'|e] st1]; [|done].
  by rewrite IH, bind_run.
Qed.

Lemma for_teams_raise (season : pystr) (pre post : list team) (t : team)
    (n n' : nat) (st st1 st2 : state) (e : exn) :
  for_teams w season pre n st = (Ok n', st1) →
  loop_body w season t n' st1 = (Raise e, st2) →
  for_teams w season (pre ++ t :: post) n st = (Raise e, st2).
Proof.
  intros Hpre Ht. rewrite for_teams_app, (bind_Ok _ _ _ _ _ Hpre).
  simpl. by rewrite (bind_Raise _ _ _ _ _ Ht).
Qed.

Lemma main_unfold (cfg : config) (st : state) :
  main w cfg st =
    (teams ← main_prologue w cfg;
     upserts ← for_teams w (resolve_season w (SEASON cfg) None) teams 0%nat;
     commit w;;
     emit EvClose;;
     emit (EvPrint (summary_line upserts (resolve_season w (SEASON cfg) None)));;
     mret upserts) st.
Proof.
  unfold main, main_prologue. rewrite !bind_run.
  destruct (connect w (DB_URL cfg) st) as [[[]|e] st1]; [|done].
  rewrite !bind_run.
  destruct (set_autocommit false st1) as [[[]|e] st2]; [|done].
  rewrite !bind_run.
  destruct (cur_execute w SqlCreateExtension st2) as [[rows|e] st3]; [|done].
  rewrite !bind_run.
  by destruct (fetch_active_teams w st3) as [[teams|e] st4].
Qed.

End Facts.

(** ** The transaction *)

Lemma in_transaction_ret {A} (a : A) : in_transaction (mret a : M A).
Proof.
  intros st r st' Hrun Ha. change ((Ok a, st) = (r, st')) in Hrun.
  injection Hrun as <- <-. split_and!; [done|done|].
  exists []. split; [by rewrite app_nil_r|apply not_elem_of_nil].
Qed.

Lemma in_transaction_raise {A} (e : exn) : in_transaction (raise e : M A).
Proof.
  intros st r st' [= <- <-] Ha. split_and!; [done|done|].
  exists []. split; [by rewrite app_nil_r|apply not_elem_of_nil].
Qed.

Lemma in_transaction_lift {A} (x : result A) : in_transaction (lift x).
Proof.
  intros st r st' [= <- <-] Ha. split_and!; [done|done|].
  exists []. split; [by rewrite app_nil_r|apply not_elem_of_nil].
Qed.

Lemma in_transaction_bind {A B} (m : M A) (k : A → M B) :
  in_transaction m → (∀ a, in_transaction (k a)) → in_transaction (m ≫= k).
Proof.
  intros Hm Hk st r st' Hrun Ha. rewrite bind_run in Hrun.
  destruct (m st) as [[a|e] st1] eqn:E.
  - destruct (Hm _ _ _ E Ha) as (Hp1 & Ha1 & evs1 & Hl1 & Hc1).
    destruct (Hk a _ _ _ Hrun Ha1) as (Hp2 & Ha2 & evs2 & Hl2 & Hc2).
    split_and!; [congruence|done|].
    exists (evs1 ++ evs2). rewrite Hl2, Hl1, app_assoc. split; [done|].
    rewrite elem_of_app. tauto.
  - injection Hrun as <- <-. exact (Hm _ _ _ E Ha).
Qed.

Lemma in_transaction_except {A} (m h : M A) :
  in_transaction m → in_transaction h → in_transaction (except_HTTPError m h).
Proof.
  intros Hm Hh st r st' Hrun Ha. unfold except_HTTPError in Hrun.
  destruct (m st) as [[a|e] st1] eqn:E.
  - injection Hrun as <- <-. exact (Hm _ _ _ E Ha).
  - destruct (Hm _ _ _ E Ha) as (Hp1 & Ha1 & evs1 & Hl1 & Hc1).
    assert (h st1 = (r, st') ∨ (Raise e, st1) = (r, st')) as [Hrun'|Hrun']
      by (destruct e; auto).
    + destruct (Hh _ _ _ Hrun' Ha1) as (Hp2 & Ha2 & evs2 & Hl2 & Hc2).
      split_and!; [congruence|done|].
      exists (evs1 ++ evs2). rewrite Hl2, Hl1, app_assoc. split; [done|].
      rewrite elem_of_app. tauto.
    + injection Hrun' as <- <-. eauto.
Qed.

Lemma in_transaction_emit (e : event) :
  e ≠ EvDb OpCommit → in_transaction (emit e).
Proof.
  intros He st r st' [= <- <-] Ha. split_and!; [done|done|].
  exists [e]. split; [done|]. by rewrite list_elem_of_singleton.
Qed.

Lemma in_transaction_set_autocommit : in_transaction (set_autocommit false).
Proof.
  intros st r st' [= <- <-] Ha. split_and!; [done|done|].
  exists []. split; [by rewrite app_nil_r|apply not_elem_of_nil].
Qed.

Section Transaction.
Context `{U : PyUnicode} `{P : Postgres}.
Variable w : world.

Lemma in_transaction_nhl_get (url : pystr) : in_transaction (nhl_get w url).
Proof.
  intros st r st' Hrun Ha.
  pose proof (nhl_get_state w url st) as Hs. rewrite Hrun in Hs. simpl in Hs.
  subst st'. split_and!; [done|done|].
  exists [EvHttpGet url]. split; [done|]. by rewrite list_elem_of_singleton.
Qed.

Lemma in_transaction_cur_execute (s : stmt) : in_transaction (cur_execute w s).
Proof.
  intros st r st' Hrun Ha. unfold cur_execute in Hrun.
  assert (∃ evs, log st ++ [EvDb (OpExecute s)] = log st ++ evs
                 ∧ EvDb OpCommit ∉ evs) as Hev.
  { eexists. split; [done|]. by rewrite list_elem_of_singleton. }
  destruct (db_fault w _ _).
  { injection Hrun as <- <-. simpl. by split_and!. }
  destruct (run_stmt w s (working st)) as [[rows db']|e].
  - injection Hrun as <- <-. simpl. rewrite Ha. by split_and!.
  - injection Hrun as <- <-. simpl. by split_and!.
Qed.

Lemma in_transaction_fetch_active_teams : in_transaction (fetch_active_teams w).
Proof.
  unfold fetch_active_teams.
  repeat first [ apply in_transaction_nhl_get | apply in_transaction_lift
               | apply in_transaction_bind; [|intros ?] ].
Qed.

Lemma in_transaction_loop_body (season : pystr) (t : team) (n : nat) :
  in_transaction (loop_body w season t n).
Proof.
  unfold loop_body. apply in_transaction_bind; [|intros [summary|]].
  - pose proof (fetch_team_season_summary_state w (code t) season) as Hs.
    intros st r st' Hrun Ha. specialize (Hs st). rewrite Hrun in Hs.
    simpl in Hs. subst st'. split_and!; [done|done|].
    eexists. split; [done|]. by rewrite list_elem_of_singleton.
  - case_bool_decide; [apply in_transaction_ret|].
    apply in_transaction_bind; [|intros team_id].
    + unfold team_id_from_db_or_slug.
      apply in_transaction_bind; [apply in_transaction_cur_execute|intros rows].
      destruct (head rows) as [[|id ?]|], (name t);
        first [apply in_transaction_ret | apply in_transaction_raise].
    + repeat first [ apply in_transaction_cur_execute
                   | by apply in_transaction_emit
                   | apply in_transaction_ret
                   | apply in_transaction_bind; [|intros ?] ].
  - apply in_transaction_ret.
Qed.

Lemma in_transaction_for_teams (season : pystr) (teams : list team) (n : nat) :
  in_transaction (for_teams w season teams n).
Proof.
  revert n. induction teams as [|t teams IH]; intros n; simpl.
  - apply in_transaction_ret.
  - apply in_transaction_bind; [apply in_transaction_loop_body|done].
Qed.

(** [main] is: open a session, work inside one transaction, commit, report.
    When it raises, either no commit was issued or the commit itself failed. *)
Lemma main_outcome (cfg : config) (st : state) :
  match main w cfg st with
  | (Ok n, st') =>
      ∃ pre line,
        log st' = log st ++ pre ++ [EvDb OpCommit; EvClose; EvPrint line] ∧
        (EvDb OpCommit ∉ pre) ∧
        persisted st' = working st'
  | (Raise e, st') =>
      persisted st' = persisted st ∧
      ∃ evs, log st' = log st ++ evs ∧
             ((EvDb OpCommit ∉ evs) ∨
              (e = DatabaseError ∧
               ∃ pre, evs = pre ++ [EvDb OpCommit] ∧ EvDb OpCommit ∉ pre))
  end.
Proof.
  rewrite main_unfold, bind_run. unfold main_prologue. rewrite bind_run.
  unfold connect at 1. destruct (db_fault w _ (OpConnect _)).
  { split; [done|]. eexists. split; [done|]. left.
    by rewrite list_elem_of_singleton. }
  set (st1 := {| persisted := persisted st; autocommit := false;
                 working := persisted st;
                 log := log st ++ [EvDb (OpConnect (DB_URL cfg))] |}).
  set (season := resolve_season w (SEASON cfg) None).
  assert (in_transaction (set_autocommit false;;
                          cur_execute w SqlCreateExtension;;
                          fetch_active_teams w)) as Hpro.
  { repeat first [ apply in_transaction_set_autocommit
                 | apply in_transaction_cur_execute
                 | apply in_transaction_fetch_active_teams
                 | apply in_transaction_bind; [|intros ?] ]. }
  destruct ((set_autocommit false;; cur_execute w SqlCreateExtension;;
             fetch_active_teams w) st1) as [[teams|e] st2] eqn:E2;
    destruct (Hpro _ _ _ E2 eq_refl) as (Hp2 & Ha2 & evs2 & Hl2 & Hc2).
  2:{ split; [done|]. exists (EvDb (OpConnect (DB_URL cfg)) :: evs2).
      split; [rewrite Hl2; simpl; by rewrite <- app_assoc|].
      left. rewrite elem_of_cons. by intros [?|?]. }
  rewrite bind_run.
  destruct (for_teams w season teams 0%nat st2) as [[n|e] st3] eqn:E3;
    destruct (in_transaction_for_teams season teams 0%nat _ _ _ E3 Ha2)
      as (Hp3 & Ha3 & evs3 & Hl3 & Hc3).
  2:{ split; [by rewrite Hp3, Hp2|].
      exists (EvDb (OpConnect (DB_URL cfg)) :: evs2 ++ evs3).
      split; [rewrite Hl3, Hl2; simpl; by rewrite <- !app_assoc|].
      left. rewrite elem_of_cons, elem_of_app. by intros [?|[?|?]]. }
  assert (EvDb OpCommit ∉ EvDb (OpConnect (DB_URL cfg)) :: evs2 ++ evs3) as Hnc.
  { rewrite elem_of_cons, elem_of_app. by intros [?|[?|?]]. }
  rewrite bind_run. unfold commit at 1. destruct (db_fault w _ OpCommit).
  - simpl. split; [by rewrite Hp3, Hp2|].
    exists ((EvDb (OpConnect (DB_URL cfg)) :: evs2 ++ evs3) ++ [EvDb OpCommit]).
    split; [rewrite Hl3, Hl2; simpl; by rewrite <- !app_assoc|].
    right. split; [done|]. by eexists.
  - simpl. exists (EvDb (OpConnect (DB_URL cfg)) :: evs2 ++ evs3), (summary_line n season).
    split_and!; [|done|done].
    rewrite Hl3, Hl2. simpl. by rewrite <- !app_assoc.
Qed.

(** An exception in a team's turn of the loop leaves the loop and [main]. *)
Lemma main_aborts (cfg : config) (st st1 st2 st3 : state) (pre post : list team)
    (t : team) (n : nat) (e : exn) :
  main_prologue w cfg st = (Ok (pre ++ t :: post), st1) →
  for_teams w (resolve_season w (SEASON cfg) None) pre 0%nat st1 = (Ok n, st2) →
  loop_body w (resolve_season w (SEASON cfg) None) t n st2 = (Raise e, st3) →
  main w cfg st = (Raise e, st3) ∧ persisted st3 = persisted st.
Proof.
  intros Hpro Hpre Ht.
  assert (main w cfg st = (Raise e, st3)) as Hm.
  { rewrite main_unfold, (bind_Ok _ _ _ _ _ Hpro).
    apply bind_Raise. by eapply for_teams_raise. }
  split; [done|]. pose proof (main_outcome cfg st) as Ho. rewrite Hm in Ho.
  by destruct Ho.
Qed.

End Transaction.

(** ** The run *)

Section Run.
Context `{U : PyUnicode} `{P : Postgres}.
Variable w : world.

(** C2. All writes of a run happen in one transaction, committed once,
    after the loop over the teams.  A run that returns has logged exactly
    one commit, as the last database operation, and what is persisted is
    what the transaction saw.  A run that raises, wherever it does, leaves
    what was persisted before it, and either issued no commit or failed in
    the commit itself.  An exception in any team's turn of the loop (stats
    fetch, identifier resolution or upsert) ends the run there, whatever
    the earlier teams wrote. *)
Theorem run_is_atomic (st : state) :
  match program w st with
  | (Ok n, st') =>
      ∃ pre line,
        log st' = log st ++ pre ++ [EvDb OpCommit; EvClose; EvPrint line] ∧
        (EvDb OpCommit ∉ pre) ∧
        persisted st' = working st'
  | (Raise e, st') =>
      persisted st' = persisted st ∧
      ∃ evs, log st' = log st ++ evs ∧
             ((EvDb OpCommit ∉ evs) ∨
              (e = DatabaseError ∧
               ∃ pre, evs = pre ++ [EvDb OpCommit] ∧ EvDb OpCommit ∉ pre))
  end ∧
  (∀ cfg pre t post n e st1 st2 st3,
     module_init w = Ok cfg →
     main_prologue w cfg st = (Ok (pre ++ t :: post), st1) →
     for_teams w (resolve_season w (SEASON cfg) None) pre 0%nat st1 = (Ok n, st2) →
     loop_body w (resolve_season w (SEASON cfg) None) t n st2 = (Raise e, st3) →
     program w st = (Raise e, st3) ∧ persisted st3 = persisted st).
Proof.
  split.
  - unfold program. rewrite bind_run. unfold lift.
    destruct (module_init w) as [cfg|e]; [apply main_outcome|].
    split; [done|]. exists []. split; [by rewrite app_nil_r|].
    left. apply not_elem_of_nil.
  - intros cfg pre t post n e st1 st2 st3 Hcfg Hpro Hpre Ht.
    unfold program. rewrite bind_run. unfold lift. rewrite Hcfg.
    by eapply main_aborts.
Qed.

(** The key of line 10 contains an equals sign. *)
Remark DB_URL_KEY_has_equals_sign : 61%N ∈ DB_URL_KEY.
Proof. apply (bool_decide_unpack _). by vm_compute. Qed.

(** C7. The connection string is read from the environment and required:
    when the variable is absent the run raises at once, with no request
    made and no database operation issued (the state, log included, is
    untouched). *)
Theorem missing_db_url_is_fatal (st : state) :
  environ w !! DB_URL_KEY = None →
  program w st = (Raise (KeyError DB_URL_KEY), st).
Proof.
  intros Henv. unfold program. rewrite bind_run. unfold lift, module_init.
  by rewrite Henv.
Qed.

(** C6. A team whose stats fetch returns nothing is skipped: its turn of the
    loop issues no statement and changes neither the transaction's view nor
    what is persisted nor the counter; only the request is logged.  The run
    goes on with the next team from there. *)
Theorem no_data_team_untouched (season : pystr) (t : team) (rest : list team)
    (n : nat) (st : state) :
  (fetch_team_season_summary w (code t) season st).1 = Ok None ∨
  (fetch_team_season_summary w (code t) season st).1 = Ok (Some ∅) →
  let st' := set_log (log st ++ [EvHttpGet (club_stats_url (code t) season)]) st in
  loop_body w season t n st = (Ok n, st') ∧
  working st' = working st ∧
  persisted st' = persisted st ∧
  for_teams w season (t :: rest) n st = for_teams w season rest n st'.
Proof.
  intros Hf st'. pose proof (loop_body_skip w season t n st Hf) as Hb.
  split_and!; [done|done|done|]. simpl. by rewrite (bind_Ok _ _ _ _ _ Hb).
Qed.

(** C3, as the code has it.  A response with an error status, client (4xx)
    or server (5xx) alike, makes the fetcher return nothing, and the team
    is skipped.  A request that gets no response, or a body that is not
    JSON, raises; the exception leaves the loop and [main] at that team,
    and nothing of the run is persisted. *)
Theorem stats_fetch_errors (cfg : config) (st : state) (pre post : list team)
    (t : team) (n : nat) (st1 st2 : state) :
  let season := resolve_season w (SEASON cfg) None in
  let url := club_stats_url (code t) season in
  let st3 := set_log (log st2 ++ [EvHttpGet url]) st2 in
  main_prologue w cfg st = (Ok (pre ++ t :: post), st1) →
  for_teams w season pre 0%nat st1 = (Ok n, st2) →
  (∀ status body,
     http w (length (log st2)) url = Response status body →
     400 ≤ status < 600 →
     fetch_team_season_summary w (code t) season st2 = (Ok None, st3) ∧
     loop_body w season t n st2 = (Ok n, st3)) ∧
  (http w (length (log st2)) url = NoResponse →
     fetch_team_season_summary w (code t) season st2 = (Raise ConnectionError, st3) ∧
     main w cfg st = (Raise ConnectionError, st3) ∧
     persisted st3 = persisted st) ∧
  (∀ status,
     http w (length (log st2)) url = Response status None →
     ¬ (400 ≤ status < 600) →
     fetch_team_season_summary w (code t) season st2 = (Raise JSONDecodeError, st3) ∧
     main w cfg st = (Raise JSONDecodeError, st3) ∧
     persisted st3 = persisted st).
Proof.
  intros season url st3 Hpro Hpre.
  assert (∀ e, fetch_team_season_summary w (code t) season st2 = (Raise e, st3) →
               main w cfg st = (Raise e, st3) ∧ persisted st3 = persisted st)
    as Habort.
  { intros e Hf. eapply main_aborts; [done|done|].
    by apply loop_body_raise_in_fetch. }
  split_and!.
  - intros status body Hh Hs.
    pose proof (fetch_team_season_summary_status w _ _ _ _ _ Hh Hs) as Hf.
    split; [done|]. apply loop_body_skip. left. by rewrite Hf.
  - intros Hh.
    pose proof (fetch_team_season_summary_no_response w _ _ _ Hh) as Hf.
    split; [done|]. by apply Habort.
  - intros status Hh Hs.
    pose proof (fetch_team_season_summary_not_json w _ _ _ _ Hh Hs) as Hf.
    split; [done|]. by apply Habort.
Qed.

End Run.

(** ** The season *)

(** C5. With no override (none, or an empty one), a date in July to
    December of year Y gives the season "{Y}{Y+1}" and a date in January to
    June gives "{Y-1}{Y}"; the date is the one given, or today's in US
    Eastern time.  The resolver is a total function: it cannot fail. *)
Theorem season_inference_rule (w : world) (override : option pystr)
    (today : option date) :
  override = None ∨ override = Some [] →
  let d := default (today_et w) today in
  ((7 ≤ month d ≤ 12) →
     resolve_season w override today
       = str_of_int (year d) ++ str_of_int (year d + 1)) ∧
  ((1 ≤ month d ≤ 6) →
     resolve_season w override today
       = str_of_int (year d - 1) ++ str_of_int (year d)).
Proof.
  intros Ho d.
  assert (resolve_season w override today = infer_current_season w today) as ->
    by (by destruct Ho as [-> | ->]).
  unfold infer_current_season.
  assert (match today with Some d0 => d0 | None => today_et w end = d) as ->
    by (by destruct today).
  split; intros Hm.
  - assert ((month d <? 7) = false) as -> by lia. done.
  - assert ((month d <? 7) = true) as -> by lia. by rewrite Z.sub_add.
Qed.

Lemma season_inference_rule_witness :
  (Some ([] : pystr) = None ∨ Some ([] : pystr) = Some []) ∧
  resolve_season boston_world (Some [])
    (Some {| year := 2026; month := 3; day := 14 |}) = py "20252026" ∧
  resolve_season boston_world (Some []) None = py "20252026".
Proof.
  split; [by right|]. split.
  - apply (season_inference_rule boston_world (Some [])
             (Some {| year := 2026; month := 3; day := 14 |})); [by right|].
    simpl. lia.
  - apply (season_inference_rule boston_world (Some []) None); [by right|].
    simpl. lia.
Defined.

(** ** The mapping of the statistics *)

Lemma summary_of_ot (data : gmap pystr json) :
  summary_of data !! py "ot"
    = Some (py_or (dict_get data "otLosses") (dict_get data "overtimeLosses")).
Proof. done. Qed.

Lemma summary_of_row (data : gmap pystr json) :
  summary_of data !! py "row"
    = Some (py_or (dict_get data "regulationPlusOtWins") (dict_get data "row")).
Proof. done. Qed.

(** What holds of the two dual-named fields: a primary value that is true
    in Python's sense wins, and an absent or null primary gives way to the
    alternate. *)
Lemma alternate_field_fallback (data : gmap pystr json) :
  (truthy (dict_get data "otLosses") = true →
     summary_of data !! py "ot" = Some (dict_get data "otLosses")) ∧
  (dict_get data "otLosses" = JNull →
     summary_of data !! py "ot" = Some (dict_get data "overtimeLosses")) ∧
  (truthy (dict_get data "regulationPlusOtWins") = true →
     summary_of data !! py "row" = Some (dict_get data "regulationPlusOtWins")) ∧
  (dict_get data "regulationPlusOtWins" = JNull →
     summary_of data !! py "row" = Some (dict_get data "row")).
Proof.
  rewrite summary_of_ot, summary_of_row. unfold py_or.
  split_and!; intros ->; done.
Qed.

(** C4, where the code departs from it.  A primary field that is present
    with the value 0 does not win: the alternate's value is taken, and when
    there is none the statistic is null. *)
Theorem zero_primary_is_dropped :
  summary_of {[ py "otLosses" := JInt 0 ]} !! py "ot" = Some JNull ∧
  summary_of (<[ py "otLosses" := JInt 0 ]> {[ py "overtimeLosses" := JInt 2 ]})
    !! py "ot" = Some (JInt 2) ∧
  summary_of {[ py "regulationPlusOtWins" := JInt 0 ]} !! py "row" = Some JNull ∧
  summary_of {[ py "gamesPlayed" := JInt 0 ]} !! py "gp" = Some (JInt 0).
Proof. by vm_compute. Qed.

(** ** The directory *)

Section Directory.
Context `{U : PyUnicode}.

Lemma team_of_entry_spec (entry : json) :
  entry_typed entry → team_of_entry entry = Ok (spec_team entry).
Proof.
  destruct entry as [| | | | | |d]; try done. simpl.
  unfold short_code, display_name, py_or. intros Ht.
  destruct (dict_get d "triCode") as [| | | |[|c s]| |] eqn:Etri;
    simpl in Ht |- *; rewrite ?Ht; try done.
  destruct (truthy (dict_get d "fullName")) eqn:E1; simpl; rewrite ?E1; [done|].
  destruct (truthy (dict_get d "name")) eqn:E2; simpl; rewrite ?E2; [done|].
  destruct (truthy (dict_get d "teamName")) eqn:E3; simpl; by rewrite ?E3.
Qed.

Lemma teams_loop_spec (entries : list json) (teams : list team) :
  Forall entry_typed entries →
  teams_loop entries teams = Ok (teams ++ omap spec_team entries).
Proof.
  intros Ht. revert teams.
  induction Ht as [|e entries He _ IH]; intros teams; simpl.
  - by rewrite app_nil_r.
  - rewrite (team_of_entry_spec e He).
    destruct (spec_team e) as [x|]; [|done]. by rewrite IH, <- app_assoc.
Qed.

Lemma omap_one_missing {A B} (f : A → option B) (pre post : list A) (bad : A) :
  f bad = None →
  Forall (fun x => is_Some (f x)) (pre ++ post) →
  length (omap f (pre ++ bad :: post)) = length (pre ++ post).
Proof.
  intros Hb Hall. rewrite !omap_app, !length_app. simpl. rewrite Hb.
  apply Forall_app in Hall as [Hpre Hpost].
  assert (∀ l, Forall (fun x => is_Some (f x)) l → length (omap f l) = length l) as Hlen.
  { induction 1 as [|x l [y Hy] _ IH]; simpl; [done|]. rewrite Hy. simpl. f_equal. exact IH. }
  by rewrite !Hlen.
Qed.

(** C8. From a directory of well-typed team objects the fetcher returns,
    in source order, exactly the entries that have a short code and a
    display name (the first of fullName, name, teamName that has a value),
    as the lowercased code with that name; the others are skipped without
    an error.  So 32 entries of which one lacks the code or every name
    yield 31 teams. *)
Theorem fetch_active_teams_normalizes (w : world) (st : state) (status : Z)
    (entries : list json) :
  http w (length (log st)) (py "https://api-web.nhle.com/v1/teams")
    = Response status (Some (JArr entries)) →
  ¬ (400 ≤ status < 600) →
  Forall entry_typed entries →
  fetch_active_teams w st =
    (Ok (omap spec_team entries),
     set_log (log st ++ [EvHttpGet (py "https://api-web.nhle.com/v1/teams")]) st) ∧
  (∀ pre bad post,
     entries = pre ++ bad :: post →
     length entries = 32%nat →
     spec_team bad = None →
     Forall (fun e => is_Some (spec_team e)) (pre ++ post) →
     length (omap spec_team entries) = 31%nat).
Proof.
  intros Hh Hs Ht. split.
  - unfold fetch_active_teams. rewrite bind_run. unfold nhl_get at 1. rewrite Hh.
    assert ((400 <=? status) && (status <? 600) = false) as -> by lia.
    rewrite bind_run. unfold lift. simpl.
    by rewrite (teams_loop_spec entries [] Ht).
  - intros pre bad post -> Hlen Hbad Hgood.
    rewrite (omap_one_missing _ _ _ _ Hbad Hgood).
    rewrite length_app in Hlen |- *. simpl in Hlen. lia.
Qed.

End Directory.

(** ** The identifier resolver *)

Section Resolver.
Context `{U : PyUnicode} `{P : Postgres}.
Variable w : world.

Lemma select_team_rows (n : pystr) (db : database) :
  run_stmt w (SqlSelectTeam (JStr n)) db =
    Ok ((fun r => [default JNull (r !! py "team_id")])
          <$> take 1 (base.filter (fun r => name_matches n r = true) (nhl_teams db)),
        db).
Proof. done. Qed.

Lemma filter_no_match (n : pystr) (tbl : list row) :
  Forall (fun r => name_matches n r = false) tbl →
  base.filter (fun r => name_matches n r = true) tbl = [].
Proof.
  induction 1 as [|r tbl Hr _ IH]; [done|].
  rewrite filter_cons_False by congruence. done.
Qed.

(** With [None] for the name the SELECT compares with NULL and returns no
    row, and [slug_from_name(None)] raises [TypeError]; with a name of any
    other type that is not text the statement itself fails. *)
Lemma resolver_without_text_name (st : state) (n : json) :
  db_fault w (length (log st)) (OpExecute (SqlSelectTeam n)) = false →
  (n = JNull → (team_id_from_db_or_slug w n st).1 = Raise TypeError) ∧
  ((∀ s, n ≠ JStr s) → n ≠ JNull →
   (team_id_from_db_or_slug w n st).1 = Raise DatabaseError).
Proof.
  intros Hfault. unfold team_id_from_db_or_slug. rewrite bind_run.
  unfold cur_execute. rewrite Hfault. split.
  - by intros ->.
  - intros Hs Hn. destruct n; try done. by destruct (Hs s).
Qed.

(** C9. For a display name that the lookup runs for, the resolver always
    returns an identifier, never an error; when no row of the reference
    table matches the name, the identifier is the slug of the name, which
    is the slug as the specification words it; and "Montréal Canadiens"
    gives "montreal_canadiens". *)
Theorem resolver_falls_back_to_slug (st : state) (n : pystr) :
  db_fault w (length (log st)) (OpExecute (SqlSelectTeam (JStr n))) = false →
  lower_has_no_capital U →
  (∃ id st', team_id_from_db_or_slug w (JStr n) st = (Ok id, st')) ∧
  (Forall (fun r => name_matches n r = false) (nhl_teams (working st)) →
   ∃ st', team_id_from_db_or_slug w (JStr n) st = (Ok (JStr (slug_from_name n)), st')
          ∧ working st' = working st) ∧
  slug_from_name n = spec_slug n ∧
  (knows_montreal U → slug_from_name montreal = py "montreal_canadiens").
Proof.
  intros Hfault Hlow.
  assert (∀ rows, ∃ id,
            match head ((fun r : row => [default JNull (r !! py "team_id")]) <$> rows) with
            | Some (id :: _) => mret id
            | _ => mret (JStr (slug_from_name n))
            end = (mret id : M json)) as Hval.
  { intros [|r rows]; simpl; eauto. }
  split_and!.
  - unfold team_id_from_db_or_slug. rewrite bind_run. unfold cur_execute.
    rewrite Hfault, select_team_rows.
    destruct (Hval (take 1 (base.filter (fun r => name_matches n r = true)
                              (nhl_teams (working st))))) as [id Hid].
    rewrite Hid. by eexists _, _.
  - intros Hnone. unfold team_id_from_db_or_slug. rewrite bind_run.
    unfold cur_execute. rewrite Hfault, select_team_rows.
    rewrite (filter_no_match _ _ Hnone). simpl. by eexists.
  - by apply slug_from_name_spec_slug.
  - apply slug_from_name_montreal.
Qed.

End Resolver.

Lemma resolver_falls_back_to_slug_witness :
  db_fault boston_world (length (log (initial empty_db)))
    (OpExecute (SqlSelectTeam (JStr montreal))) = false ∧
  lower_has_no_capital latin_unicode ∧
  knows_montreal latin_unicode ∧
  (∃ st', team_id_from_db_or_slug (U:=latin_unicode) (P:=plain_postgres)
            boston_world (JStr montreal) (initial empty_db)
          = (Ok (JStr (py "montreal_canadiens")), st')) ∧
  spec_slug (U:=latin_unicode) montreal = py "montreal_canadiens".
Proof.
  pose proof (resolver_falls_back_to_slug (U:=latin_unicode) (P:=plain_postgres)
                boston_world (initial empty_db) montreal eq_refl latin_unicode_lower)
    as (_ & Hslug & Hspec & Hmtl).
  specialize (Hmtl latin_unicode_montreal).
  split_and!; [done|exact latin_unicode_lower|exact latin_unicode_montreal| |].
  - destruct (Hslug ltac:(constructor)) as (st' & Hrun & _).
    exists st'. by rewrite <- Hmtl.
  - by rewrite <- Hspec.
Defined.

(** ** The upsert *)

Lemma bind_params_Ok (cols : list pystr) (params : gmap pystr json) :
  (∀ c, c ∈ cols → is_Some (params !! c)) →
  ∃ r, bind_params cols params = Ok r ∧
       (∀ c, c ∈ cols → r !! c = params !! c) ∧
       (∀ c, c ∉ cols → r !! c = None).
Proof.
  induction cols as [|c cols IH]; intros Hall; simpl.
  - exists ∅. split_and!; [done|by intros c []%elem_of_nil|done].
  - destruct (Hall c) as [v Hv]; [by left|]. rewrite Hv.
    destruct IH as (r & -> & Hin & Hout); [intros c' Hc'; apply Hall; by right|].
    exists (<[c:=v]> r). split_and!; [done| |].
    + intros c' Hc'. destruct (decide (c = c')) as [->|Hne].
      * by rewrite lookup_insert_eq.
      * rewrite lookup_insert_ne by done. apply Hin.
        by apply elem_of_cons in Hc' as [?|?].
    + intros c' Hc'. apply not_elem_of_cons in Hc' as [Hne Hc'].
      rewrite lookup_insert_ne by done. by apply Hout.
Qed.

Lemma foldr_insert_lookup (g : pystr → json) (cols : list pystr) (r0 : row) (c : pystr) :
  foldr (fun c r => <[c := g c]> r) r0 cols !! c =
    if decide (c ∈ cols) then Some (g c) else r0 !! c.
Proof.
  induction cols as [|c' cols IH]; simpl; [done|].
  destruct (decide (c' = c)) as [->|Hne].
  - rewrite lookup_insert_eq. rewrite decide_True; [done|by left].
  - rewrite lookup_insert_ne, IH by done.
    destruct (decide (c ∈ cols)) as [Hin|Hout].
    + rewrite decide_True; [done|by right].
    + rewrite decide_False; [done|]. rewrite not_elem_of_cons. by split.
Qed.

Lemma insert_cols_split :
  insert_cols = py "team_id" :: py "season" :: update_cols.
Proof. reflexivity. Qed.

Lemma key_cols_not_updated :
  (py "team_id" ∉ update_cols) ∧ (py "season" ∉ update_cols) ∧
  (py "ingested_at" ∉ insert_cols) ∧ (py "ingested_at" ∉ update_cols).
Proof. split_and!; apply (bool_decide_unpack _); by vm_compute. Qed.

Lemma sql_key_Some (v : option json) (k : json) :
  sql_key v = Some k ↔ ∃ x, v = Some x ∧ x ≠ JNull ∧ k = key_value x.
Proof.
  unfold sql_key. split.
  - destruct v as [x|]; [|done]. intros Hx. exists x.
    destruct x; try done; injection Hx as <-; by split_and!.
  - intros (x & -> & Hx & ->). by destruct x.
Qed.

Lemma row_key_Some (r : row) (k : json * json) :
  row_key r = Some k ↔
  ∃ t s, r !! py "team_id" = Some t ∧ r !! py "season" = Some s ∧
         t ≠ JNull ∧ s ≠ JNull ∧ k = (key_value t, key_value s).
Proof.
  unfold row_key. split.
  - destruct (sql_key (r !! py "team_id")) as [t'|] eqn:Et; [|done].
    destruct (sql_key (r !! py "season")) as [s'|] eqn:Es; [|done].
    intros [= <-].
    apply sql_key_Some in Et as (t & Ht & Hnt & ->).
    apply sql_key_Some in Es as (s & Hs & Hns & ->).
    by exists t, s.
  - intros (t & s & -> & -> & Ht & Hs & ->).
    by destruct t, s.
Qed.


(** A record with NULL for the identifier has no key, and conflicts with no
    row. *)
Lemma null_key_never_conflicts (p r : row) :
  p !! py "team_id" = Some JNull → row_key p = None ∧ conflicts p r = false.
Proof.
  intros Hp. assert (row_key p = None) as Hk by (unfold row_key; by rewrite Hp).
  split; [done|]. unfold conflicts. by rewrite Hk.
Qed.

Lemma row_key_ext (r r' : row) :
  r' !! py "team_id" = r !! py "team_id" →
  r' !! py "season" = r !! py "season" →
  row_key r' = row_key r.
Proof. unfold row_key. by intros -> ->. Qed.

Lemma conflicts_key (p r : row) :
  conflicts p r = true ↔ ∃ k, row_key p = Some k ∧ row_key r = Some k.
Proof.
  unfold conflicts.
  destruct (row_key p) as [[t s]|], (row_key r) as [[t' s']|].
  - rewrite andb_true_iff, !json_eqb_spec. split.
    + intros [-> ->]. eauto.
    + by intros (k & [= <-] & [= <- <-]).
  - split; [done|]. by intros (k & _ & ?).
  - split; [done|]. by intros (k & ? & _).
  - split; [done|]. by intros (k & ? & _).
Qed.

Lemma do_update_lookup (now : Z) (p r : row) (c : pystr) :
  do_update now p r !! c =
    if decide (c = py "ingested_at") then Some (JInt now)
    else if decide (c ∈ update_cols) then Some (default JNull (p !! c))
    else r !! c.
Proof.
  unfold do_update. destruct (decide (c = py "ingested_at")) as [->|Hne].
  - by rewrite lookup_insert_eq.
  - rewrite lookup_insert_ne by done.
    apply (foldr_insert_lookup (fun c => default JNull (p !! c))).
Qed.

Lemma do_update_key (now : Z) (p r : row) :
  row_key (do_update now p r) = row_key r.
Proof.
  destruct key_cols_not_updated as (Ht & Hs & _ & _).
  apply row_key_ext; rewrite do_update_lookup;
    rewrite decide_False by done; by rewrite decide_False.
Qed.

Lemma omap_row_key_cons (r : row) (tbl : list row) :
  omap row_key (r :: tbl) =
    match row_key r with
    | Some k => k :: omap row_key tbl
    | None => omap row_key tbl
    end.
Proof. reflexivity. Qed.


Lemma omap_row_key_app (l1 l2 : list row) (r : row) (k : json * json) :
  row_key r = Some k →
  omap row_key (l1 ++ r :: l2) = omap row_key l1 ++ k :: omap row_key l2.
Proof. intros Hr. by rewrite omap_app, omap_row_key_cons, Hr. Qed.



(** The record [main] builds has every parameter of the statement, and,
    when the identifier is not [None], the key of that identifier and the
    season. *)
Lemma stat_record_is_complete (team_id : json) (season : pystr) (t : team)
    (data : gmap pystr json) :
  team_id ≠ JNull →
  (∀ c, c ∈ insert_cols →
        is_Some (stat_record team_id season t (summary_of data) !! c)) ∧
  row_key (stat_record team_id season t (summary_of data))
    = Some (key_value team_id, JStr season).
Proof.
  intros Hid. split.
  - apply Forall_forall. unfold insert_cols.
    repeat (apply Forall_cons; split; [eexists; reflexivity|]). apply Forall_nil_2.
  - apply row_key_Some. exists team_id, (JStr season). by split_and!.
Qed.

Section Upsert.
Context `{P : Postgres}.



End Upsert.

(** ** Closed instances *)


(** The same by computation: an integer identifier, upserted twice, is one
    row, written at the second time; and the identifier as text is the same
    key, so that record rewrites the row, which keeps its identifier. *)
Example integer_id_twice_is_one_row :
  let view (t : result (list row)) :=
    match t with
    | Ok tbl =>
        Some ((fun r => (row_key r, r !! py "team_id", r !! py "gp",
                         r !! py "ingested_at")) <$> tbl)
    | Raise _ => None
    end in
  view (UPSERT_SQL (P:=plain_postgres) 1000 integer_id_record [])
  = Some [(Some (JStr (py "6"), JStr (py "20252026")),
           Some (JInt 6), Some (JInt 10), Some (JInt 1000))] ∧
  view (UPSERT_SQL (P:=plain_postgres) 2000 integer_id_record [integer_id_row])
  = Some [(Some (JStr (py "6"), JStr (py "20252026")),
           Some (JInt 6), Some (JInt 10), Some (JInt 2000))] ∧
  view (UPSERT_SQL (P:=plain_postgres) 2000 text_id_record [integer_id_row])
  = Some [(Some (JStr (py "6"), JStr (py "20252026")),
           Some (JInt 6), Some JNull, Some (JInt 2000))].
Proof. vm_compute. by split_and!. Qed.

Lemma missing_db_url_is_fatal_witness :
  environ bare_world !! DB_URL_KEY = None ∧
  program (U:=latin_unicode) (P:=plain_postgres) bare_world (initial empty_db)
    = (Raise (KeyError DB_URL_KEY), initial empty_db).
Proof.
  split; [done|].
  apply (missing_db_url_is_fatal (U:=latin_unicode) (P:=plain_postgres) bare_world).
  done.
Defined.

Lemma no_data_team_untouched_witness :
  ((fetch_team_season_summary (U:=latin_unicode) boston_world (py "sea")
      (py "20252026") (initial empty_db)).1 = Ok None ∨
   (fetch_team_season_summary (U:=latin_unicode) boston_world (py "sea")
      (py "20252026") (initial empty_db)).1 = Ok (Some ∅)) ∧
  loop_body (U:=latin_unicode) (P:=plain_postgres) boston_world (py "20252026")
    {| code := py "sea"; name := JStr (py "Seattle Kraken") |} 0%nat (initial empty_db)
  = (Ok 0%nat,
     set_log [EvHttpGet (py "https://api-web.nhle.com/v1/club-stats/SEA/20252026/2")]
       (initial empty_db)).
Proof.
  assert ((fetch_team_season_summary (U:=latin_unicode) boston_world (py "sea")
             (py "20252026") (initial empty_db)).1 = Ok None) as Hf by (by vm_compute).
  split; [by left|].
  apply (no_data_team_untouched (U:=latin_unicode) (P:=plain_postgres) boston_world
           (py "20252026") {| code := py "sea"; name := JStr (py "Seattle Kraken") |}
           [] 0%nat (initial empty_db)).
  by left.
Defined.

Lemma stats_fetch_errors_witness :
  main_prologue (U:=latin_unicode) (P:=plain_postgres) unreachable_world local_config
    (initial empty_db) = (Ok ([] ++ boston :: []), before_loop) ∧
  for_teams (U:=latin_unicode) (P:=plain_postgres) unreachable_world
    (resolve_season unreachable_world (SEASON local_config) None) [] 0%nat before_loop
    = (Ok 0%nat, before_loop) ∧
  http unreachable_world (length (log before_loop))
    (club_stats_url (U:=latin_unicode) (code boston)
       (resolve_season unreachable_world (SEASON local_config) None)) = NoResponse ∧
  main (U:=latin_unicode) (P:=plain_postgres) unreachable_world local_config
    (initial empty_db)
  = (Raise ConnectionError,
     set_log (log before_loop ++
              [EvHttpGet (club_stats_url (U:=latin_unicode) (code boston)
                 (resolve_season unreachable_world (SEASON local_config) None))])
       before_loop).
Proof.
  assert (main_prologue (U:=latin_unicode) (P:=plain_postgres) unreachable_world
            local_config (initial empty_db) = (Ok ([] ++ boston :: []), before_loop))
    as H1 by (by vm_compute).
  assert (http unreachable_world (length (log before_loop))
            (club_stats_url (U:=latin_unicode) (code boston)
               (resolve_season unreachable_world (SEASON local_config) None))
          = NoResponse) as H4 by (by vm_compute).
  split_and!; [done|done|done|].
  apply (stats_fetch_errors (U:=latin_unicode) (P:=plain_postgres) unreachable_world
           local_config (initial empty_db) [] [] boston 0%nat
           before_loop before_loop H1 eq_refl).
  exact H4.
Defined.

(** The run of [second_team_unreachable_world]: Boston's row is written,
    then the request for Seattle raises. *)
Lemma run_is_atomic_witness :
  module_init second_team_unreachable_world = Ok local_config ∧
  main_prologue (U:=latin_unicode) (P:=plain_postgres) second_team_unreachable_world
    local_config (initial empty_db) = (Ok ([boston] ++ seattle :: []), loop_start) ∧
  for_teams (U:=latin_unicode) (P:=plain_postgres) second_team_unreachable_world
    (resolve_season second_team_unreachable_world (SEASON local_config) None)
    [boston] 0%nat loop_start = (Ok 1%nat, after_boston) ∧
  loop_body (U:=latin_unicode) (P:=plain_postgres) second_team_unreachable_world
    (resolve_season second_team_unreachable_world (SEASON local_config) None)
    seattle 1%nat after_boston = (Raise ConnectionError, at_seattle) ∧
  length (nhl_team_stats (working at_seattle)) = 1%nat ∧
  program (U:=latin_unicode) (P:=plain_postgres) second_team_unreachable_world
    (initial empty_db) = (Raise ConnectionError, at_seattle) ∧
  persisted at_seattle = persisted (initial empty_db).
Proof.
  assert (module_init second_team_unreachable_world = Ok local_config) as H1
    by (by vm_compute).
  assert (main_prologue (U:=latin_unicode) (P:=plain_postgres)
            second_team_unreachable_world local_config (initial empty_db)
          = (Ok ([boston] ++ seattle :: []), loop_start)) as H2 by (by vm_compute).
  assert (for_teams (U:=latin_unicode) (P:=plain_postgres) second_team_unreachable_world
            (resolve_season second_team_unreachable_world (SEASON local_config) None)
            [boston] 0%nat loop_start = (Ok 1%nat, after_boston)) as H3
    by (by vm_compute).
  assert (loop_body (U:=latin_unicode) (P:=plain_postgres) second_team_unreachable_world
            (resolve_season second_team_unreachable_world (SEASON local_config) None)
            seattle 1%nat after_boston = (Raise ConnectionError, at_seattle)) as H4
    by (by vm_compute).
  destruct (proj2 (run_is_atomic (U:=latin_unicode) (P:=plain_postgres)
                     second_team_unreachable_world (initial empty_db))
              local_config [boston] seattle [] 1%nat ConnectionError
              loop_start after_boston at_seattle H1 H2 H3 H4) as [H5 H6].
  split_and!; [done|done|done|done|by vm_compute|done|done].
Defined.

(** C3, as the specification states it, fails on a server error: the
    club-stats endpoint answers 500, the fetcher returns nothing instead of
    raising, and the run goes on to commit and report 0 teams. *)
Lemma server_error_is_swallowed :
  http server_error_world 3
    (py "https://api-web.nhle.com/v1/club-stats/BOS/20252026/2") = Response 500 None ∧
  (fetch_team_season_summary (U:=latin_unicode) server_error_world (py "bos")
     (py "20252026") (initial empty_db)).1 = Ok None ∧
  (program (U:=latin_unicode) (P:=plain_postgres) server_error_world
     (initial empty_db)).1 = Ok 0%nat.
Proof. by vm_compute. Qed.

Lemma fetch_active_teams_normalizes_witness :
  http directory32_world (length (log (initial empty_db)))
    (py "https://api-web.nhle.com/v1/teams") = Response 200 (Some (JArr directory32)) ∧
  ¬ (400 ≤ 200 < 600) ∧
  Forall entry_typed directory32 ∧
  length directory32 = 32%nat ∧
  (fetch_active_teams (U:=latin_unicode) directory32_world (initial empty_db)).1
    = Ok (replicate 31 boston).
Proof.
  assert (¬ (400 ≤ 200 < 600)) as H2 by lia.
  assert (Forall entry_typed directory32) as H3.
  { unfold directory32. apply Forall_app. split.
    - apply Forall_replicate. by vm_compute.
    - constructor; [by vm_compute|constructor]. }
  split_and!; [done|done|done|done|].
  destruct (fetch_active_teams_normalizes (U:=latin_unicode) directory32_world
              (initial empty_db) 200 directory32 eq_refl H2 H3) as [-> _].
  by vm_compute.
Defined.

(** ** Two runs, end to end *)

(** The specification's example: one team, four statistics published.  The
    run reports one upsert and persists one row, keyed by the slug of
    "Boston Bruins", with the four values and nulls elsewhere. *)
Example end_to_end_boston :
  let run := program (U:=latin_unicode) (P:=plain_postgres) boston_world
               (initial empty_db) in
  run.1 = Ok 1%nat ∧
  (fun r => (row_key r, [r !! py "gp"; r !! py "w"; r !! py "l"; r !! py "points"],
             [r !! py "ot"; r !! py "gf"; r !! py "pp_pct"; r !! py "ties"]))
    <$> nhl_team_stats (persisted run.2)
  = [(Some (JStr (py "boston_bruins"), JStr (py "20252026")),
      [Some (JInt 10); Some (JInt 7); Some (JInt 3); Some (JInt 14)],
      [Some JNull; Some JNull; Some JNull; Some JNull])].
Proof. vm_compute. by split. Qed.

(** A run that fails at the second team: the first team's row was written
    inside the transaction, and none of it is persisted. *)
Example abort_discards_earlier_team :
  let run := program (U:=latin_unicode) (P:=plain_postgres)
               second_team_unreachable_world (initial empty_db) in
  run.1 = Raise ConnectionError ∧
  row_key <$> nhl_team_stats (working run.2)
    = [Some (JStr (py "boston_bruins"), JStr (py "20252026"))] ∧
  nhl_team_stats (persisted run.2) = [].
Proof. vm_compute. by split_and!. Qed.

(** * Part III: further properties of the code *)

(** ** The statistics mapping *)

Lemma summary_of_nonempty (data : gmap pystr json) : summary_of data ≠ ∅.
Proof.
  intros He. assert (is_Some (summary_of data !! py "ties")) as Hs by (by eexists).
  rewrite He, lookup_empty in Hs. by destruct Hs.
Qed.

(** X1. Whatever the response holds, the mapped statistics have exactly the
    21 keys of the dict literal, so the mapping is never empty and a team
    whose response was decoded is never skipped; [ties] is null; and for an
    empty response every field is null. *)
Theorem summary_of_always_full (data : gmap pystr json) :
  (∀ c, is_Some (summary_of data !! c) ↔ c ∈ summary_keys) ∧
  summary_of data ≠ ∅ ∧
  summary_of data !! py "ties" = Some JNull ∧
  (∀ c, c ∈ summary_keys → summary_of ∅ !! c = Some JNull).
Proof.
  assert (∀ c, is_Some (summary_of data !! c) ↔ c ∈ summary_keys) as Hkeys.
  { intros c. unfold summary_of.
    rewrite <- elem_of_dom, dom_list_to_map_L, elem_of_list_to_set.
    done. }
  split_and!; [done|apply summary_of_nonempty|done|].
  apply Forall_forall. unfold summary_keys.
  repeat (apply Forall_cons; split; [reflexivity|]). apply Forall_nil_2.
Qed.

(** ** The upsert statement *)

Lemma bind_params_missing (cols pre post : list pystr) (c : pystr)
    (params : gmap pystr json) :
  cols = pre ++ c :: post →
  (∀ c', c' ∈ pre → is_Some (params !! c')) →
  params !! c = None →
  bind_params cols params = Raise (KeyError c).
Proof.
  intros -> Hpre Hc. induction pre as [|c' pre IH]; simpl.
  - by rewrite Hc.
  - destruct (Hpre c') as [v ->]; [by left|].
    rewrite IH; [done|]. intros c'' Hc''. apply Hpre. by right.
Qed.

Lemma bind_params_ext (cols : list pystr) (params params' : gmap pystr json) :
  (∀ c, c ∈ cols → params !! c = params' !! c) →
  bind_params cols params = bind_params cols params'.
Proof.
  induction cols as [|c cols IH]; intros Heq; simpl; [done|].
  rewrite (Heq c) by (by left). rewrite IH; [done|].
  intros c' Hc'. apply Heq. by right.
Qed.

Lemma on_conflict_update_cases (now : Z) (p : row) (tbl : list row) :
  match on_conflict_update now p tbl with
  | None => Forall (fun r => conflicts p r = false) tbl
  | Some tbl' =>
      ∃ l1 r l2,
        tbl = l1 ++ r :: l2 ∧
        Forall (fun r => conflicts p r = false) l1 ∧
        conflicts p r = true ∧
        tbl' = l1 ++ do_update now p r :: l2
  end.
Proof.
  induction tbl as [|r tbl IH]; simpl; [done|].
  destruct (conflicts p r) eqn:Ec.
  - by exists [], r, tbl.
  - destruct (on_conflict_update now p tbl) as [tbl'|]; simpl.
    + destruct IH as (l1 & r' & l2 & -> & Hl1 & Hr' & ->).
      exists (r :: l1), r', l2. split_and!; [done| |done|done]. by constructor.
    + by constructor.
Qed.

Section UpsertFrame.
Context `{P : Postgres}.

(** X2. The statement binds its parameters in the order it names them: the
    first one the record lacks raises [KeyError] for that name, and no table
    comes back.  What a record holds under other names is never read: two
    records that agree on the named parameters give the same result. *)
Theorem upsert_reads_named_parameters (now : Z) (params : gmap pystr json)
    (tbl : list row) (pre post : list pystr) (c : pystr) :
  insert_cols = pre ++ c :: post →
  (∀ c', c' ∈ pre → is_Some (params !! c')) →
  params !! c = None →
  UPSERT_SQL now params tbl = Raise (KeyError c) ∧
  (∀ full full' : gmap pystr json,
     (∀ c', c' ∈ insert_cols → full !! c' = full' !! c') →
     UPSERT_SQL now full tbl = UPSERT_SQL now full' tbl).
Proof.
  intros Hcols Hpre Hc. split.
  - unfold UPSERT_SQL, proposed_row.
    by rewrite (bind_params_missing _ _ _ _ _ Hcols Hpre Hc).
  - intros full full' Heq. unfold UPSERT_SQL, proposed_row.
    by rewrite (bind_params_ext _ _ _ Heq).
Qed.

(** X3. An upsert of a record that has every parameter proposes a row with
    the record's key.  When no row of the table has that key (in particular
    when the record has none, a key column being NULL) the proposed row is
    appended.  Otherwise the first row with that key is rewritten in place:
    it keeps its key and the value of every column that the SET list does
    not name, takes the record's value in every column the SET list names,
    and [ingested_at] becomes [now()].  In both cases every other row stays
    where it is, as it is. *)
Theorem upsert_touches_one_row (now : Z) (params : gmap pystr json) (tbl : list row) :
  (∀ c, c ∈ insert_cols → is_Some (params !! c)) →
  ∃ p,
    proposed_row now params = Ok p ∧
    row_key p = row_key params ∧
    (((∀ k r, row_key params = Some k → r ∈ tbl → row_key r ≠ Some k) ∧
      UPSERT_SQL now params tbl = Ok (tbl ++ [p])) ∨
     (∃ k l1 r l2,
        tbl = l1 ++ r :: l2 ∧
        row_key params = Some k ∧
        row_key r = Some k ∧
        (∀ r', r' ∈ l1 → row_key r' ≠ Some k) ∧
        UPSERT_SQL now params tbl = Ok (l1 ++ do_update now p r :: l2) ∧
        row_key (do_update now p r) = Some k ∧
        (∀ c, c ∉ update_cols → c ≠ py "ingested_at" →
              do_update now p r !! c = r !! c) ∧
        (∀ c, c ∈ update_cols → do_update now p r !! c = params !! c) ∧
        do_update now p r !! py "ingested_at" = Some (JInt now))).
Proof.
  intros Hall.
  destruct key_cols_not_updated as (Htid & Hsea & Hing & Hing').
  destruct (bind_params_Ok insert_cols params Hall) as (b & Hb & Hin & _).
  exists (<[py "ingested_at" := ingested_at_default now]> b).
  unfold UPSERT_SQL, proposed_row. rewrite Hb. split; [done|].
  set (p := <[py "ingested_at" := ingested_at_default now]> b).
  assert (∀ c, c ∈ insert_cols → p !! c = params !! c) as Hp.
  { intros c Hc. unfold p. rewrite lookup_insert_ne; [by apply Hin|].
    intros <-. by apply Hing. }
  assert (∀ c, c ∈ update_cols → c ∈ insert_cols) as Hsub.
  { intros c Hc. rewrite insert_cols_split. by do 2 right. }
  assert (row_key p = row_key params) as Hpk.
  { apply row_key_ext; apply Hp; rewrite insert_cols_split.
    - by left.
    - right. by left. }
  split; [done|].
  pose proof (on_conflict_update_cases now p tbl) as Hcases.
  destruct (on_conflict_update now p tbl) as [tbl'|].
  - right. destruct Hcases as (l1 & r & l2 & -> & Hl1 & Hr & ->).
    apply conflicts_key in Hr as (k & Hk & Hr). rewrite Hpk in Hk.
    exists k, l1, r, l2. split_and!; [done|done|done| |done| | | |].
    + intros r' Hr' Hk'. rewrite Forall_forall in Hl1.
      assert (conflicts p r' = true) as Ht; [|by rewrite (Hl1 r' Hr') in Ht].
      apply conflicts_key. exists k. by rewrite Hpk.
    + by rewrite do_update_key.
    + intros c Hc Hne. rewrite do_update_lookup.
      by rewrite decide_False, decide_False.
    + intros c Hc. rewrite do_update_lookup.
      rewrite decide_False by (intros ->; by apply Hing').
      rewrite decide_True by done. rewrite Hp by (by apply Hsub).
      destruct (Hall c (Hsub c Hc)) as [v Hv]. by rewrite Hv.
    + rewrite do_update_lookup. by rewrite decide_True.
  - left. split; [|done]. intros k r Hk Hr Hrk.
    rewrite Forall_forall in Hcases.
    assert (conflicts p r = true) as Ht; [|by rewrite (Hcases r Hr) in Ht].
    apply conflicts_key. exists k. by rewrite Hpk.
Qed.

End UpsertFrame.

Lemma upsert_reads_named_parameters_witness :
  insert_cols = [py "team_id"] ++ py "season" :: update_cols ∧
  (∀ c', c' ∈ [py "team_id"] →
         is_Some (({[ py "team_id" := JStr (py "bos") ]} : gmap pystr json) !! c')) ∧
  ({[ py "team_id" := JStr (py "bos") ]} : gmap pystr json) !! py "season" = None ∧
  UPSERT_SQL (P:=plain_postgres) 1000 {[ py "team_id" := JStr (py "bos") ]} []
    = Raise (KeyError (py "season")).
Proof.
  assert (∀ c', c' ∈ [py "team_id"] →
            is_Some (({[ py "team_id" := JStr (py "bos") ]} : gmap pystr json) !! c'))
    as H2.
  { intros c' ->%list_elem_of_singleton. by eexists. }
  split_and!; [done|done|done|].
  exact (proj1 (upsert_reads_named_parameters (P:=plain_postgres) 1000
                  {[ py "team_id" := JStr (py "bos") ]} []
                  [py "team_id"] update_cols (py "season") eq_refl H2 eq_refl)).
Defined.

(** The record with the integer identifier 6, upserted at time 2000 into
    the table that holds its row of time 1000: the row is rewritten. *)
Lemma upsert_touches_one_row_witness :
  (∀ c, c ∈ insert_cols → is_Some (integer_id_record !! c)) ∧
  ∃ p, proposed_row (P:=plain_postgres) 2000 integer_id_record = Ok p ∧
       UPSERT_SQL (P:=plain_postgres) 2000 integer_id_record [integer_id_row]
       = Ok [do_update 2000 p integer_id_row].
Proof.
  assert (∀ c, c ∈ insert_cols → is_Some (integer_id_record !! c)) as H1.
  { apply Forall_forall. apply (bool_decide_unpack _). by vm_compute. }
  assert (row_key integer_id_record = Some (JStr (py "6"), JStr (py "20252026")))
    as Hk by (by vm_compute).
  assert (row_key integer_id_row = Some (JStr (py "6"), JStr (py "20252026")))
    as Hr by (by vm_compute).
  split; [done|].
  destruct (upsert_touches_one_row (P:=plain_postgres) 2000 integer_id_record
              [integer_id_row] H1)
    as (p & Hp & _ & [[Hno _]|(k & l1 & r & l2 & Htbl & _ & _ & _ & Hrun & _)]).
  - destruct (Hno _ integer_id_row Hk (list_elem_of_here _ _) Hr).
  - exists p. split; [exact Hp|].
    destruct l1 as [|r1 l1].
    + injection Htbl as <- <-. exact Hrun.
    + destruct l1; discriminate Htbl.
Defined.

(** ** The record built for a team *)

Lemma stat_record_keys (id : json) (season : pystr) (t : team)
    (data : gmap pystr json) (c : pystr) :
  is_Some (stat_record id season t (summary_of data) !! c) ↔ c ∈ insert_cols.
Proof.
  assert (dom (stat_record id season t (summary_of data)) = list_to_set insert_cols)
    as Hdom by (vm_compute; reflexivity).
  by rewrite <- elem_of_dom, Hdom, elem_of_list_to_set.
Qed.

Lemma stat_record_runs `{P : Postgres} (id : json) (season : pystr) (t : team)
    (data : gmap pystr json) (now : Z) (tbl : list row) :
  ∃ tbl', UPSERT_SQL now (stat_record id season t (summary_of data)) tbl = Ok tbl'.
Proof.
  destruct (bind_params_Ok insert_cols (stat_record id season t (summary_of data)))
    as (b & Hb & _ & _).
  { intros c Hc. by apply stat_record_keys. }
  unfold UPSERT_SQL, proposed_row. rewrite Hb.
  destruct (on_conflict_update _ _ _); eauto.
Qed.

(** X4. The record [main] builds for a team holds, whatever the response and
    the identifier were, exactly the 24 parameters the statement names: the
    identifier, the season, the 21 mapped statistics and the source string;
    so executing the statement with it never raises [KeyError]. *)
Theorem stat_record_fits_statement `{P : Postgres} (id : json) (season : pystr)
    (t : team) (data : gmap pystr json) (now : Z) (tbl : list row) :
  let record := stat_record id season t (summary_of data) in
  (∀ c, is_Some (record !! c) ↔ c ∈ insert_cols) ∧
  record !! py "team_id" = Some id ∧
  record !! py "season" = Some (JStr season) ∧
  record !! py "source"
    = Some (JStr (py "api-web.nhle.com/" ++ code t ++ py "/" ++ season)) ∧
  (∀ c, c ∈ summary_keys → record !! c = summary_of data !! c) ∧
  ∃ tbl', UPSERT_SQL now record tbl = Ok tbl'.
Proof.
  intros record.
  split_and!; [apply stat_record_keys|done|done|done| |apply stat_record_runs].
  apply Forall_forall. unfold summary_keys.
  repeat (apply Forall_cons; split; [reflexivity|]). apply Forall_nil_2.
Qed.

(** ** More on the slug *)

Lemma underscore_not_az09 : is_az09 underscore = false.
Proof. reflexivity. Qed.

Lemma re_sub_runs_keeps_az09 (s : pystr) :
  List.filter is_az09 (re_sub_runs s) = List.filter is_az09 s.
Proof.
  induction s as [|c s IH]; [by simp re_sub_runs|].
  rewrite re_sub_runs_cons. simpl. destruct (is_az09 c) eqn:Hc.
  - simpl. by rewrite Hc, IH.
  - destruct s as [|c' r]; [done|].
    destruct (is_az09 c') eqn:Hc'; [|done].
    change (List.filter is_az09 (underscore :: re_sub_runs (c' :: r)))
      with (List.filter is_az09 (re_sub_runs (c' :: r))).
    done.
Qed.

Lemma drop_while_keeps_az09 (s : pystr) :
  List.filter is_az09 (drop_while (N.eqb underscore) s) = List.filter is_az09 s.
Proof.
  induction s as [|c s IH]; [done|]. cbn [drop_while].
  destruct (N.eqb_spec underscore c) as [<-|Hne]; [|done].
  rewrite IH. cbn [List.filter]. by rewrite underscore_not_az09.
Qed.

Lemma trim_trailing_keeps_az09 (s : pystr) :
  List.filter is_az09 (trim_trailing underscore s) = List.filter is_az09 s.
Proof.
  induction s as [|c s IH]; [done|]. cbn [trim_trailing List.filter].
  rewrite <- IH. destruct (trim_trailing underscore s) as [|x y] eqn:E.
  - destruct (N.eqb_spec c underscore) as [->|Hne].
    + by rewrite underscore_not_az09.
    + cbn [List.filter]. by destruct (is_az09 c).
  - done.
Qed.

Lemma filter_az09_nil (s : pystr) :
  List.filter is_az09 s = [] ↔ Forall (fun c => is_az09 c = false) s.
Proof.
  induction s as [|c s IH]; simpl.
  - split; [constructor|done].
  - destruct (is_az09 c) eqn:Hc.
    + split; [done|]. intros Hall. apply Forall_cons in Hall as [Hc' _]. congruence.
    + rewrite IH. split; [by constructor|]. by intros [_ ?]%Forall_cons.
Qed.

(** X5. The slug keeps the characters a-z and 0-9 of the lowercased,
    unaccented text, all of them and in their order: only what is between
    them is reduced to underscores.  So the slug is empty exactly when that
    text has no such character (a name in another script, or punctuation
    only). *)
Theorem slug_keeps_ascii_alphanumerics `{U : PyUnicode} (name : pystr) :
  let lowered :=
    str_lower (base.filter (fun c => combining c = 0%N) (normalize_NFKD name)) in
  List.filter is_az09 (slug_from_name name) = List.filter is_az09 lowered ∧
  (slug_from_name name = [] ↔ Forall (fun c => is_az09 c = false) lowered).
Proof.
  intros lowered.
  assert (List.filter is_az09 (slug_from_name name) = List.filter is_az09 lowered)
    as Hkeep.
  { rewrite slug_from_name_trim. fold lowered.
    by rewrite trim_trailing_keeps_az09, drop_while_keeps_az09, re_sub_runs_keeps_az09. }
  split; [done|]. rewrite <- filter_az09_nil, <- Hkeep. split; [by intros ->|].
  intros Hnone. rewrite slug_from_name_trim in Hnone |- *. fold lowered in Hnone |- *.
  destruct (trim_trailing underscore _) as [|x y] eqn:E; [done|].
  destruct (trim_trailing_head _ _ _ _ E) as [s' Es'].
  pose proof (drop_while_head underscore (re_sub_runs lowered)) as Hx.
  rewrite Es' in Hx. simpl in Hx.
  pose proof (re_sub_runs_alphabet lowered) as Ha.
  apply (drop_while_Forall _ (N.eqb underscore)) in Ha. rewrite Es' in Ha.
  apply Forall_cons in Ha as [Ha _]. unfold slug_char in Ha.
  simpl in Hnone. destruct (is_az09 x); [done|].
  simpl in Ha. apply N.eqb_eq in Ha. subst x. by destruct Hx.
Qed.

(** ** More on the season *)

Lemma four_digit_years_checked : forallb four_digits four_digit_years = true.
Proof. vm_compute. reflexivity. Qed.

Lemma str_of_int_four_digits (y : Z) :
  1000 ≤ y ≤ 9999 →
  length (str_of_int y) = 4%nat ∧ Forall (fun c => is_digit c = true) (str_of_int y).
Proof.
  intros Hy. pose proof four_digit_years_checked as Hall.
  rewrite forallb_forall in Hall. specialize (Hall y).
  unfold four_digits in Hall. rewrite andb_true_iff, Nat.eqb_eq in Hall.
  destruct Hall as [Hlen Hdig].
  { apply list_elem_of_In. unfold four_digit_years. apply elem_of_seqZ. lia. }
  split; [done|]. apply Forall_forall. intros c Hc.
  rewrite forallb_forall in Hdig. apply Hdig. by apply list_elem_of_In.
Qed.

(** X6. For the dates whose season starts in a year of four digits, the
    inferred season is a string of exactly eight decimal digits. *)
Theorem inferred_season_is_eight_digits (w : world) (today : option date) :
  let d := default (today_et w) today in
  1000 ≤ (if month d <? 7 then year d - 1 else year d) ≤ 9998 →
  length (infer_current_season w today) = 8%nat ∧
  Forall (fun c => is_digit c = true) (infer_current_season w today).
Proof.
  intros d Hy. unfold infer_current_season.
  assert (match today with Some d0 => d0 | None => today_et w end = d) as ->
    by (by destruct today).
  set (start := if month d <? 7 then year d - 1 else year d) in *.
  destruct (str_of_int_four_digits start) as [Hl1 Hd1]; [lia|].
  destruct (str_of_int_four_digits (start + 1)) as [Hl2 Hd2]; [lia|].
  split.
  - by rewrite length_app, Hl1, Hl2.
  - by apply Forall_app.
Qed.

Lemma inferred_season_is_eight_digits_witness :
  1000 ≤ (if month (default (today_et boston_world) None) <? 7
          then year (default (today_et boston_world) None) - 1
          else year (default (today_et boston_world) None)) ≤ 9998 ∧
  length (infer_current_season boston_world None) = 8%nat.
Proof.
  assert (1000 ≤ (if month (default (today_et boston_world) None) <? 7
                  then year (default (today_et boston_world) None) - 1
                  else year (default (today_et boston_world) None)) ≤ 9998) as H1
    by (simpl; lia).
  split; [done|].
  exact (proj1 (inferred_season_is_eight_digits boston_world None H1)).
Defined.

(** X7. With a non-empty [NHL_SEASON] in the environment the calendar date
    is not an input of the run: in two worlds that differ only in what
    [datetime.now(ET)] returns (same environment, same answers of the web
    API, same behaviour of the database, same transaction time [now()]) the
    run gives the same result, the same database and the same events.  The
    time [now()], which [ingested_at] takes, is another input and is held
    the same here. *)
Theorem override_makes_run_independent_of_date `{U : PyUnicode} `{P : Postgres}
    (w : world) (d : date) (st : state) (c : N) (s : pystr) :
  environ w !! py "NHL_SEASON" = Some (c :: s) →
  program (on_date d w) st = program w st.
Proof.
  intros Hs. unfold program. rewrite !bind_run. unfold lift, module_init.
  change (environ (on_date d w)) with (environ w). rewrite Hs.
  destruct (environ w !! DB_URL_KEY) as [url|]; [|done].
  unfold main, resolve_season. simpl SEASON. cbv iota. reflexivity.
Qed.

(** A run with the override 20252026 on 1 January 1999, from which the
    season 19981999 would be inferred, and the same on 1 July 2031: both
    write Boston's row for 20252026. *)
Lemma override_makes_run_independent_of_date_witness :
  environ override_world !! py "NHL_SEASON" = Some (50%N :: py "0252026") ∧
  infer_current_season override_world None = py "19981999" ∧
  program (U:=latin_unicode) (P:=plain_postgres)
    (on_date {| year := 2031; month := 7; day := 1 |} override_world) (initial empty_db)
  = program (U:=latin_unicode) (P:=plain_postgres) override_world (initial empty_db) ∧
  (program (U:=latin_unicode) (P:=plain_postgres) override_world (initial empty_db)).1
  = Ok 1%nat ∧
  (fun r => (r !! py "team_id", r !! py "season", r !! py "gp"))
    <$> nhl_team_stats
          (persisted (program (U:=latin_unicode) (P:=plain_postgres)
                        override_world (initial empty_db)).2)
  = [(Some (JStr (py "boston_bruins")), Some (JStr (py "20252026")), Some (JInt 10))].
Proof.
  split; [by vm_compute|]. split; [by vm_compute|].
  split; [|vm_compute; by split].
  apply (override_makes_run_independent_of_date (U:=latin_unicode) (P:=plain_postgres)
           override_world {| year := 2031; month := 7; day := 1 |} (initial empty_db)
           50%N (py "0252026")).
  by vm_compute.
Defined.

(** ** More on the identifier resolver *)

Section ResolverFound.
Context `{U : PyUnicode} `{P : Postgres}.
Variable w : world.

(** X8. When exactly one row of the reference table matches the name, the
    resolver returns what that row stores as [team_id], also when it is
    null: the name's slug is not used then.  The lookup is one SELECT
    and leaves the session's view of the database as it was. *)
Theorem resolver_returns_stored_id (st : state) (n : pystr)
    (pre post : list row) (r : row) :
  db_fault w (length (log st)) (OpExecute (SqlSelectTeam (JStr n))) = false →
  nhl_teams (working st) = pre ++ r :: post →
  Forall (fun r' => name_matches n r' = false) (pre ++ post) →
  name_matches n r = true →
  ∃ st',
    team_id_from_db_or_slug w (JStr n) st
      = (Ok (default JNull (r !! py "team_id")), st') ∧
    working st' = working st ∧
    log st' = log st ++ [EvDb (OpExecute (SqlSelectTeam (JStr n)))].
Proof.
  intros Hfault Htbl [Hpre Hpost]%Forall_app Hr.
  unfold team_id_from_db_or_slug. rewrite bind_run. unfold cur_execute.
  rewrite Hfault, select_team_rows, Htbl.
  rewrite filter_app, (filter_no_match _ _ Hpre), filter_cons_True by done.
  simpl. by eexists.
Qed.

End ResolverFound.

Lemma resolver_returns_stored_id_witness :
  db_fault boston_world (length (log (initial reference_db)))
    (OpExecute (SqlSelectTeam (JStr (py "BOSTON bruins")))) = false ∧
  nhl_teams (working (initial reference_db))
    = [] ++ <[ py "team_id" := JStr (py "BOS") ]>
              {[ py "team_name" := JStr (py "Boston Bruins") ]} :: [] ∧
  name_matches (P:=plain_postgres) (py "BOSTON bruins")
    (<[ py "team_id" := JStr (py "BOS") ]>
       {[ py "team_name" := JStr (py "Boston Bruins") ]}) = true ∧
  (team_id_from_db_or_slug (U:=latin_unicode) (P:=plain_postgres) boston_world
     (JStr (py "BOSTON bruins")) (initial reference_db)).1 = Ok (JStr (py "BOS")).
Proof.
  assert (name_matches (P:=plain_postgres) (py "BOSTON bruins")
            (<[ py "team_id" := JStr (py "BOS") ]>
               {[ py "team_name" := JStr (py "Boston Bruins") ]}) = true) as H4
    by (by vm_compute).
  split_and!; [done|done|done|].
  destruct (resolver_returns_stored_id (U:=latin_unicode) (P:=plain_postgres)
              boston_world (initial reference_db) (py "BOSTON bruins") [] []
              (<[ py "team_id" := JStr (py "BOS") ]>
                 {[ py "team_name" := JStr (py "Boston Bruins") ]})
              eq_refl eq_refl (Forall_nil_2 _) H4) as (st' & -> & _).
  by vm_compute.
Defined.

(** ** More on the directory *)

Section DirectoryErrors.
Context `{U : PyUnicode}.

Lemma team_of_entry_raises (entry : json) :
  entry_raises entry = true → team_of_entry entry = Raise AttributeError.
Proof.
  destruct entry as [| | | | | |d]; try done. simpl.
  destruct (dict_get d "triCode"); try done; simpl; by intros ->.
Qed.

Lemma teams_loop_raises (pre post : list json) (bad : json) (teams : list team) :
  Forall entry_typed pre → entry_raises bad = true →
  teams_loop (pre ++ bad :: post) teams = Raise AttributeError.
Proof.
  intros Hpre Hbad. revert teams.
  induction Hpre as [|e pre He _ IH]; intros teams; simpl.
  - by rewrite (team_of_entry_raises _ Hbad).
  - rewrite (team_of_entry_spec e He). by destruct (spec_team e).
Qed.

(** X9. A directory that is not a list of well-typed team objects is not
    skipped over but raises: a number, boolean or null is not iterable
    ([TypeError]); a non-empty object or string yields strings, which have
    no [get] ([AttributeError]); and in a list, the first entry that is not
    an object, or that has a name and a [triCode] that is true without being
    a string, raises [AttributeError], whatever teams came before it.  An
    empty object or string yields no team. *)
Theorem fetch_active_teams_rejects_malformed (w : world) (st : state)
    (status : Z) (data : json) :
  http w (length (log st)) (py "https://api-web.nhle.com/v1/teams")
    = Response status (Some data) →
  ¬ (400 ≤ status < 600) →
  let st' := set_log (log st ++ [EvHttpGet (py "https://api-web.nhle.com/v1/teams")]) st in
  match data with
  | JArr entries =>
      ∀ pre bad post,
        entries = pre ++ bad :: post →
        Forall entry_typed pre →
        entry_raises bad = true →
        fetch_active_teams w st = (Raise AttributeError, st')
  | JObj d =>
      fetch_active_teams w st
        = (if bool_decide (d = ∅) then Ok [] else Raise AttributeError, st')
  | JStr s =>
      fetch_active_teams w st
        = (match s with [] => Ok [] | _ => Raise AttributeError end, st')
  | _ => fetch_active_teams w st = (Raise TypeError, st')
  end.
Proof.
  intros Hh Hs st'.
  assert (fetch_active_teams w st =
            (match py_iter data with
             | Ok entries => teams_loop entries []
             | Raise e => Raise e
             end, st')) as Hrun.
  { unfold fetch_active_teams. rewrite bind_run. unfold nhl_get at 1. rewrite Hh.
    assert ((400 <=? status) && (status <? 600) = false) as -> by lia.
    rewrite bind_run. unfold lift. by destruct (py_iter data). }
  destruct data as [| | | |s|entries|d]; try done.
  - rewrite Hrun. by destruct s.
  - intros pre bad post -> Hpre Hbad. rewrite Hrun. simpl.
    by rewrite (teams_loop_raises _ _ _ _ Hpre Hbad).
  - rewrite Hrun. simpl. case_bool_decide as Hd.
    + subst d. by rewrite map_to_list_empty.
    + destruct (map_to_list d) as [|[k v] l] eqn:E; [|done].
      by apply map_to_list_empty_iff in E.
Qed.

End DirectoryErrors.

Lemma fetch_active_teams_rejects_malformed_witness :
  http numeric_code_world (length (log (initial empty_db)))
    (py "https://api-web.nhle.com/v1/teams")
    = Response 200 (Some (JArr ([named_entry] ++ numeric_code_entry :: []))) ∧
  ¬ (400 ≤ 200 < 600) ∧
  Forall entry_typed [named_entry] ∧
  entry_raises numeric_code_entry = true ∧
  (fetch_active_teams (U:=latin_unicode) numeric_code_world (initial empty_db)).1
    = Raise AttributeError.
Proof.
  assert (¬ (400 ≤ 200 < 600)) as H2 by lia.
  assert (Forall entry_typed [named_entry]) as H3
    by (constructor; [by vm_compute|constructor]).
  assert (entry_raises numeric_code_entry = true) as H4 by (by vm_compute).
  split_and!; [done|done|done|done|].
  by rewrite (fetch_active_teams_rejects_malformed (U:=latin_unicode)
                numeric_code_world (initial empty_db) 200
                (JArr ([named_entry] ++ numeric_code_entry :: [])) eq_refl H2
                [named_entry] numeric_code_entry [] eq_refl H3 H4).
Defined.

(** ** The run before the loop *)

Section BeforeLoop.
Context `{U : PyUnicode} `{P : Postgres}.
Variable w : world.

Lemma cur_execute_log (s : stmt) (st : state) :
  log (cur_execute w s st).2 = log st ++ [EvDb (OpExecute s)].
Proof.
  unfold cur_execute. destruct (db_fault w _ _); [done|].
  by destruct (run_stmt w s (working st)) as [[rows db']|e].
Qed.

Lemma create_extension_run (st : state) :
  db_fault w (length (log st)) (OpExecute SqlCreateExtension) = false →
  cur_execute w SqlCreateExtension st =
    (Ok [], {| persisted := if autocommit st then working st else persisted st;
               autocommit := autocommit st; working := working st;
               log := log st ++ [EvDb (OpExecute SqlCreateExtension)] |}).
Proof. intros Hf. unfold cur_execute. by rewrite Hf. Qed.

(** What the statements before the loop leave behind. *)
Lemma main_prologue_outcome (cfg : config) (st st1 : state)
    (r : result (list team)) :
  main_prologue w cfg st = (r, st1) →
  persisted st1 = persisted st ∧
  match r with
  | Ok _ =>
      working st1 = persisted st ∧ autocommit st1 = false ∧
      log st1 = log st ++ [EvDb (OpConnect (DB_URL cfg));
                           EvDb (OpExecute SqlCreateExtension);
                           EvHttpGet (py "https://api-web.nhle.com/v1/teams")]
  | Raise _ => True
  end.
Proof.
  unfold main_prologue. rewrite bind_run. unfold connect at 1.
  destruct (db_fault w _ (OpConnect _)); [by intros [= <- <-]|].
  rewrite bind_run. unfold set_autocommit at 1. rewrite bind_run.
  unfold cur_execute at 1. cbn [log working autocommit persisted].
  destruct (db_fault w _ (OpExecute _)); [by intros [= <- <-]|]. cbn [run_stmt].
  set (st3 := {| persisted := persisted st; autocommit := false;
                 working := persisted st; log := _ |}).
  unfold fetch_active_teams. rewrite bind_run.
  pose proof (nhl_get_state w (py "https://api-web.nhle.com/v1/teams") st3) as Hs.
  destruct (nhl_get w _ st3) as [[data|e] st4]; simpl in Hs; subst st4;
    [|by intros [= <- <-]].
  rewrite bind_run. unfold lift.
  destruct (py_iter data) as [entries|e]; [|by intros [= <- <-]].
  destruct (teams_loop entries []) as [teams|e]; intros [= <- <-]; [|done].
  simpl. split_and!; [done|done|done|]. by rewrite <- !app_assoc.
Qed.

(** X10. The session is opened before any request is made: when the
    connection is refused the run raises with nothing else attempted.  And
    an error status from the directory endpoint is not taken for "no data"
    as it is for a team's statistics: the run raises [HTTPError] after the
    one request, with no statistics requested and nothing written. *)
Theorem run_fails_before_the_loop (st : state) (url : pystr) :
  environ w !! DB_URL_KEY = Some url →
  (db_fault w (length (log st)) (OpConnect url) = true →
   program w st
     = (Raise DatabaseError, set_log (log st ++ [EvDb (OpConnect url)]) st)) ∧
  (∀ status body,
     db_fault w (length (log st)) (OpConnect url) = false →
     db_fault w (S (length (log st))) (OpExecute SqlCreateExtension) = false →
     http w (S (S (length (log st)))) (py "https://api-web.nhle.com/v1/teams")
       = Response status body →
     400 ≤ status < 600 →
     ∃ st',
       program w st = (Raise (HTTPError status), st') ∧
       log st' = log st ++ [EvDb (OpConnect url);
                            EvDb (OpExecute SqlCreateExtension);
                            EvHttpGet (py "https://api-web.nhle.com/v1/teams")] ∧
       persisted st' = persisted st ∧
       working st' = persisted st).
Proof.
  intros Henv.
  assert (program w st =
            main w {| DB_URL := url; SEASON := environ w !! py "NHL_SEASON" |} st)
    as Hprog.
  { unfold program. rewrite bind_run. unfold lift, module_init. by rewrite Henv. }
  rewrite Hprog. split.
  - intros Hf. unfold main. rewrite bind_run. unfold connect at 1.
    cbn [DB_URL]. by rewrite Hf.
  - intros status body Hc He Hh Hs. rewrite main_unfold, bind_run.
    unfold main_prologue. rewrite bind_run. unfold connect at 1. cbn [DB_URL].
    rewrite Hc. rewrite bind_run. unfold set_autocommit at 1. rewrite bind_run.
    unfold cur_execute at 1. cbn [log working autocommit persisted].
    rewrite length_app, Nat.add_1_r, He. cbn [run_stmt].
    unfold fetch_active_teams. rewrite bind_run. unfold nhl_get at 1.
    cbn [log]. rewrite !length_app, !Nat.add_1_r, Hh.
    assert ((400 <=? status) && (status <? 600) = true) as -> by lia.
    eexists. split; [done|]. simpl. by rewrite <- !app_assoc.
Qed.

End BeforeLoop.

Lemma run_fails_before_the_loop_witness :
  environ directory_down_world !! DB_URL_KEY = Some (py "postgres://localhost/nhl") ∧
  environ database_down_world !! DB_URL_KEY = Some (py "postgres://localhost/nhl") ∧
  program (U:=latin_unicode) (P:=plain_postgres) database_down_world (initial empty_db)
    = (Raise DatabaseError,
       set_log [EvDb (OpConnect (py "postgres://localhost/nhl"))] (initial empty_db)) ∧
  (program (U:=latin_unicode) (P:=plain_postgres) directory_down_world
     (initial empty_db)).1 = Raise (HTTPError 503).
Proof.
  assert (environ directory_down_world !! DB_URL_KEY
          = Some (py "postgres://localhost/nhl")) as H1 by (by vm_compute).
  assert (environ database_down_world !! DB_URL_KEY
          = Some (py "postgres://localhost/nhl")) as H2 by (by vm_compute).
  split_and!; [done|done| |].
  - exact (proj1 (run_fails_before_the_loop (U:=latin_unicode) (P:=plain_postgres)
                    database_down_world (initial empty_db) _ H2) eq_refl).
  - destruct (proj2 (run_fails_before_the_loop (U:=latin_unicode) (P:=plain_postgres)
                       directory_down_world (initial empty_db) _ H1)
                503 None eq_refl eq_refl eq_refl ltac:(lia)) as (st' & -> & _).
    done.
Defined.

(** ** The loop and its counter *)

Lemma count_events_app (p : event → bool) (l1 l2 : list event) :
  count_events p (l1 ++ l2) = (count_events p l1 + count_events p l2)%nat.
Proof. unfold count_events. by rewrite List.filter_app, length_app. Qed.

Section Counter.
Context `{U : PyUnicode} `{P : Postgres}.
Variable w : world.

(** One turn of the loop: one request; and when the turn completes, the
    counter has grown by the number of upserts executed, zero or one, each
    followed by one pause. *)
Lemma loop_body_events (season : pystr) (t : team) (n : nat) (st st' : state)
    (r : result nat) :
  loop_body w season t n st = (r, st') →
  ∃ evs,
    log st' = log st ++ evs ∧
    count_events is_http_get evs = 1%nat ∧
    match r with
    | Ok n' =>
        n' = (n + count_events is_upsert evs)%nat ∧
        count_events is_sleep evs = count_events is_upsert evs ∧
        (count_events is_upsert evs <= 1)%nat
    | Raise _ => True
    end.
Proof.
  unfold loop_body. rewrite bind_run.
  pose proof (fetch_team_season_summary_state w (code t) season st) as Hs.
  destruct (fetch_team_season_summary w (code t) season st) as [[summary|e] st1];
    simpl in Hs; subst st1.
  2:{ intros [= <- <-]. by eexists. }
  destruct summary as [summary|].
  2:{ intros [= <- <-]. eexists. split; [done|]. split; [done|].
      unfold count_events. simpl. lia. }
  case_bool_decide.
  { intros [= <- <-]. eexists. split; [done|]. split; [done|].
    unfold count_events. simpl. lia. }
  rewrite bind_run. unfold team_id_from_db_or_slug. rewrite bind_run.
  pose proof (cur_execute_log w (SqlSelectTeam (name t))
                (set_log (log st ++ [EvHttpGet (club_stats_url (code t) season)]) st))
    as Hl1.
  destruct (cur_execute w (SqlSelectTeam (name t)) _) as [[rows|e] st2];
    simpl in Hl1.
  2:{ intros [= <- <-]. eexists. split; [by rewrite Hl1, <- app_assoc|]. done. }
  set (resolved := match head rows with
                   | Some (id :: _) => mret id
                   | _ => match name t with
                          | JStr n0 => mret (JStr (slug_from_name n0))
                          | _ => raise TypeError
                          end
                   end : M json).
  assert (∀ s, (resolved s).2 = s) as Hres.
  { intros s. unfold resolved.
    destruct (head rows) as [[|id ?]|], (name t); reflexivity. }
  specialize (Hres st2). destruct (resolved st2) as [[team_id|e] st3];
    simpl in Hres; subst st3.
  2:{ intros [= <- <-]. eexists. split; [by rewrite Hl1, <- app_assoc|]. done. }
  rewrite bind_run.
  pose proof (cur_execute_log w (SqlUpsert (stat_record team_id season t summary)) st2)
    as Hl2.
  destruct (cur_execute w (SqlUpsert _) st2) as [[rows'|e] st4]; simpl in Hl2.
  2:{ intros [= <- <-]. eexists.
      split; [by rewrite Hl2, Hl1, <- !app_assoc|]. done. }
  intros [= <- <-]. eexists.
  split; [simpl; by rewrite Hl2, Hl1, <- !app_assoc|].
  split; [done|]. unfold count_events. simpl. lia.
Qed.

(** X11. The counter of the loop counts the upserts: when the loop
    completes, it has grown by exactly the number of UPSERT statements
    executed, there was one pause per upsert and one request per team, and
    the count is at most the number of teams. *)
Theorem for_teams_counts_upserts (season : pystr) (teams : list team) (n : nat)
    (st : state) :
  ∃ evs,
    log (for_teams w season teams n st).2 = log st ++ evs ∧
    match (for_teams w season teams n st).1 with
    | Ok n' =>
        n' = (n + count_events is_upsert evs)%nat ∧
        count_events is_sleep evs = count_events is_upsert evs ∧
        count_events is_http_get evs = length teams ∧
        (n' <= n + length teams)%nat
    | Raise _ => (count_events is_http_get evs <= length teams)%nat
    end.
Proof.
  revert n st. induction teams as [|t teams IH]; intros n st.
  - exists []. simpl. rewrite app_nil_r. unfold count_events. simpl.
    split_and!; first [done|lia].
  - simpl. rewrite bind_run.
    destruct (loop_body w season t n st) as [r st1] eqn:E.
    destruct (loop_body_events _ _ _ _ _ _ E) as (evs1 & Hl1 & Hg1 & Hr1).
    destruct r as [n1|e].
    + destruct (IH n1 st1) as (evs2 & Hl2 & Hr2).
      exists (evs1 ++ evs2). rewrite Hl2, Hl1, app_assoc. split; [done|].
      rewrite !count_events_app.
      destruct ((for_teams w season teams n1 st1).1) as [n2|e]; simpl; lia.
    + exists evs1. simpl. split; [done|]. lia.
Qed.

End Counter.

(** ** Runs that write nothing, and what no run does *)

Section NoData.
Context `{U : PyUnicode} `{P : Postgres}.
Variable w : world.

Lemma for_teams_all_skipped (season : pystr) (teams : list team) (n : nat)
    (st : state) :
  (∀ i team_code, ∃ status body,
     http w i (club_stats_url team_code season) = Response status body ∧
     400 ≤ status < 600) →
  ∃ st',
    for_teams w season teams n st = (Ok n, st') ∧
    working st' = working st ∧ persisted st' = persisted st.
Proof.
  intros Hno. revert st. induction teams as [|t teams IH]; intros st.
  - by exists st.
  - destruct (Hno (length (log st)) (code t)) as (status & body & Hh & Hs).
    pose proof (fetch_team_season_summary_status w _ _ _ _ _ Hh Hs) as Hf.
    assert ((fetch_team_season_summary w (code t) season st).1 = Ok None
            ∨ (fetch_team_season_summary w (code t) season st).1 = Ok (Some ∅)) as Hf'
      by (left; by rewrite Hf).
    pose proof (loop_body_skip w season t n st Hf') as Hb.
    simpl. rewrite (bind_Ok _ _ _ _ _ Hb).
    destruct (IH (set_log (log st ++ [EvHttpGet (club_stats_url (code t) season)]) st))
      as (st' & Hrun & Hw & Hp).
    by exists st'.
Qed.

(** X12. When the statistics endpoint answers every request with an error
    status, a run changes nothing of what is persisted, and if it completes
    it reports 0 teams. *)
Theorem run_without_data_changes_nothing (st : state) :
  (∀ i team_code, ∃ status body,
     http w i (club_stats_url team_code
                 (resolve_season w (environ w !! py "NHL_SEASON") None))
       = Response status body ∧
     400 ≤ status < 600) →
  persisted (program w st).2 = persisted st ∧
  (∀ n, (program w st).1 = Ok n → n = 0%nat).
Proof.
  intros Hno. destruct (program w st) as [res st'] eqn:Hrun. simpl.
  revert Hrun. unfold program. rewrite bind_run. unfold lift, module_init.
  destruct (environ w !! DB_URL_KEY) as [url|]; [|by intros [= <- <-]].
  set (cfg := {| DB_URL := url; SEASON := environ w !! py "NHL_SEASON" |}).
  rewrite main_unfold, bind_run.
  destruct (main_prologue w cfg st) as [r st1] eqn:E.
  destruct (main_prologue_outcome w cfg st st1 r E) as [Hp1 Hr1].
  destruct r as [teams|e]; [|by intros [= <- <-]]. destruct Hr1 as (Hw1 & _ & _).
  rewrite bind_run.
  destruct (for_teams_all_skipped (resolve_season w (SEASON cfg) None) teams 0%nat
              st1 Hno) as (st2 & -> & Hw2 & Hp2).
  rewrite bind_run. unfold commit at 1.
  destruct (db_fault w _ OpCommit); intros [= <- <-]; simpl.
  - split; [congruence|done].
  - split; [congruence|]. by intros n [= <-].
Qed.

End NoData.

Lemma run_without_data_changes_nothing_witness :
  (∀ i team_code, ∃ status body,
     http preseason_world i
       (club_stats_url (U:=latin_unicode) team_code
          (resolve_season preseason_world (environ preseason_world !! py "NHL_SEASON")
             None))
       = Response status body ∧
     400 ≤ status < 600) ∧
  persisted (program (U:=latin_unicode) (P:=plain_postgres) preseason_world
               (initial reference_db)).2 = persisted (initial reference_db) ∧
  (program (U:=latin_unicode) (P:=plain_postgres) preseason_world
     (initial reference_db)).1 = Ok 0%nat.
Proof.
  assert (∀ i team_code, ∃ status body,
            http preseason_world i
              (club_stats_url (U:=latin_unicode) team_code
                 (resolve_season preseason_world
                    (environ preseason_world !! py "NHL_SEASON") None))
              = Response status body ∧
            400 ≤ status < 600) as H1.
  { intros i team_code. exists 404, None. split; [|lia].
    unfold preseason_world, http. rewrite bool_decide_eq_false_2; [done|].
    unfold club_stats_url. intros Heq.
    apply (f_equal (fun s => s !! 28%nat)) in Heq. by vm_compute in Heq. }
  split; [done|].
  split; [|by vm_compute].
  exact (proj1 (run_without_data_changes_nothing (U:=latin_unicode) (P:=plain_postgres)
                  preseason_world (initial reference_db) H1)).
Defined.

(** ** What a run does to the tables *)

Lemma row_evolves_refl (r : row) : row_evolves r r.
Proof. by intros c _ _. Qed.

Lemma row_evolves_trans (r1 r2 r3 : row) :
  row_evolves r1 r2 → row_evolves r2 r3 → row_evolves r1 r3.
Proof. intros H1 H2 c Hc Hne. by rewrite H2, H1. Qed.

Lemma rows_evolve_refl (tbl : list row) : Forall2 row_evolves tbl tbl.
Proof.
  apply Forall_Forall2_diag, Forall_forall. intros r _. apply row_evolves_refl.
Qed.

(** A row that evolves keeps its key. *)
Lemma row_evolves_key (r r' : row) : row_evolves r r' → row_key r' = row_key r.
Proof.
  destruct key_cols_not_updated as (Ht & Hs & _ & _).
  intros H. by apply row_key_ext; apply H.
Qed.

Lemma row_evolves_do_update (now : Z) (p r : row) :
  row_evolves r (do_update now p r).
Proof.
  intros c Hc Hne. rewrite do_update_lookup.
  by rewrite decide_False, decide_False.
Qed.

Lemma table_evolves_refl (tbl : list row) : table_evolves tbl tbl.
Proof.
  split; [|done]. exists tbl, []. split; [by rewrite app_nil_r|].
  apply rows_evolve_refl.
Qed.

Lemma table_evolves_trans (t1 t2 t3 : list row) :
  table_evolves t1 t2 → table_evolves t2 t3 → table_evolves t1 t3.
Proof.
  intros [(k1 & a1 & -> & H1) Hu1] [(k2 & a2 & -> & H2) Hu2].
  split; [|auto].
  apply Forall2_app_inv_l in H2 as (k1' & a1' & Hk & Ha & ->).
  exists k1', (a1' ++ a2). split; [by rewrite app_assoc|].
  eapply Forall2_trans; [apply row_evolves_trans|exact H1|exact Hk].
Qed.

Lemma database_evolves_refl (db : database) : database_evolves db db.
Proof. split; [done|apply table_evolves_refl]. Qed.

Lemma database_evolves_trans (db1 db2 db3 : database) :
  database_evolves db1 db2 → database_evolves db2 db3 → database_evolves db1 db3.
Proof.
  intros [Ht1 He1] [Ht2 He2].
  split; [congruence|]. by eapply table_evolves_trans.
Qed.

Lemma not_conflicts_key (p r : row) (k : json * json) :
  row_key p = Some k → conflicts p r = false → row_key r ≠ Some k.
Proof.
  intros Hp Hc Hr. assert (conflicts p r = true) as Ht; [|congruence].
  apply conflicts_key. eauto.
Qed.

Lemma UPSERT_SQL_evolves `{P : Postgres} (now : Z) (params : gmap pystr json)
    (tbl tbl' : list row) :
  UPSERT_SQL now params tbl = Ok tbl' → table_evolves tbl tbl'.
Proof.
  unfold UPSERT_SQL. destruct (proposed_row now params) as [p|e]; [|done].
  pose proof (on_conflict_update_cases now p tbl) as Hcases.
  destruct (on_conflict_update now p tbl) as [t|]; intros [= <-].
  - destruct Hcases as (l1 & r & l2 & -> & _ & Hr & ->).
    apply conflicts_key in Hr as (k & _ & Hr).
    assert (row_key (do_update now p r) = Some k) as Hr'
      by (by rewrite do_update_key).
    split.
    + exists (l1 ++ do_update now p r :: l2), []. split; [by rewrite app_nil_r|].
      apply Forall2_app; [apply rows_evolve_refl|].
      constructor; [apply row_evolves_do_update|apply rows_evolve_refl].
    + unfold unique_keys.
      by rewrite (omap_row_key_app _ _ _ _ Hr), (omap_row_key_app _ _ _ _ Hr').
  - split; [exists tbl, [p]; split; [done|apply rows_evolve_refl]|].
    unfold unique_keys. rewrite omap_app, omap_row_key_cons. intros Hu.
    destruct (row_key p) as [k|] eqn:Hk; [|by rewrite app_nil_r].
    apply NoDup_app. split_and!; [done| |apply NoDup_singleton].
    intros x Hx ->%list_elem_of_singleton.
    apply list_elem_of_omap in Hx as (r & Hr & Hrk).
    rewrite Forall_forall in Hcases.
    by apply (not_conflicts_key p r k Hk (Hcases r Hr)).
Qed.

Lemma working_evolves_ret {A} (a : A) : working_evolves (mret a : M A).
Proof.
  intros st r st' Hrun. change ((Ok a, st) = (r, st')) in Hrun.
  injection Hrun as <- <-. apply database_evolves_refl.
Qed.

Lemma working_evolves_raise {A} (e : exn) : working_evolves (raise e : M A).
Proof. intros st r st' [= <- <-]. apply database_evolves_refl. Qed.

Lemma working_evolves_lift {A} (x : result A) : working_evolves (lift x).
Proof. intros st r st' [= <- <-]. apply database_evolves_refl. Qed.

Lemma working_evolves_emit (e : event) : working_evolves (emit e).
Proof. intros st r st' [= <- <-]. apply database_evolves_refl. Qed.

Lemma working_evolves_bind {A B} (m : M A) (k : A → M B) :
  working_evolves m → (∀ a, working_evolves (k a)) → working_evolves (m ≫= k).
Proof.
  intros Hm Hk st r st' Hrun. rewrite bind_run in Hrun.
  destruct (m st) as [[a|e] st1] eqn:E.
  - eapply database_evolves_trans; [exact (Hm _ _ _ E)|exact (Hk a _ _ _ Hrun)].
  - injection Hrun as <- <-. exact (Hm _ _ _ E).
Qed.

Section Evolves.
Context `{U : PyUnicode} `{P : Postgres}.
Variable w : world.

Lemma working_evolves_cur_execute (s : stmt) : working_evolves (cur_execute w s).
Proof.
  intros st r st'. unfold cur_execute.
  destruct (db_fault w _ _); [intros [= <- <-]; apply database_evolves_refl|].
  destruct (run_stmt w s (working st)) as [[rows db']|e] eqn:E;
    intros [= <- <-]; [|apply database_evolves_refl].
  simpl. destruct s as [|n|params]; simpl in E.
  - injection E as <- <-. apply database_evolves_refl.
  - destruct n; try done; injection E as <- <-; apply database_evolves_refl.
  - destruct (UPSERT_SQL (txn_now w) params (nhl_team_stats (working st)))
      as [tbl|e] eqn:Eu; [|done].
    injection E as <- <-. split; [done|]. simpl. by eapply UPSERT_SQL_evolves.
Qed.

Lemma working_evolves_loop_body (season : pystr) (t : team) (n : nat) :
  working_evolves (loop_body w season t n).
Proof.
  unfold loop_body. apply working_evolves_bind; [|intros [summary|]].
  - intros st r st' Hrun.
    pose proof (fetch_team_season_summary_state w (code t) season st) as Hs.
    rewrite Hrun in Hs. simpl in Hs. subst st'. apply database_evolves_refl.
  - case_bool_decide; [apply working_evolves_ret|].
    apply working_evolves_bind; [|intros team_id].
    + unfold team_id_from_db_or_slug.
      apply working_evolves_bind; [apply working_evolves_cur_execute|intros rows].
      destruct (head rows) as [[|id ?]|], (name t);
        first [apply working_evolves_ret | apply working_evolves_raise].
    + repeat first [ apply working_evolves_cur_execute
                   | apply working_evolves_emit
                   | apply working_evolves_ret
                   | apply working_evolves_bind; [|intros ?] ].
  - apply working_evolves_ret.
Qed.

Lemma working_evolves_for_teams (season : pystr) (teams : list team) (n : nat) :
  working_evolves (for_teams w season teams n).
Proof.
  revert n. induction teams as [|t teams IH]; intros n; simpl.
  - apply working_evolves_ret.
  - apply working_evolves_bind; [apply working_evolves_loop_body|done].
Qed.

(** X13. Whatever the world does, what is persisted after a run has the
    reference table [nhl_teams] as it was, and a statistics table in which
    every row of before is still at its place, with the same value in every
    column that [DO UPDATE SET] does not assign (its key columns among
    them), any new rows coming after them: a run deletes no row, moves none
    and re-keys none.  And if no two rows had the same key before the run,
    none have after it. *)
Theorem run_only_adds_rows (st : state) :
  let db := persisted st in
  let db' := persisted (program w st).2 in
  nhl_teams db' = nhl_teams db ∧
  (∃ kept added,
     nhl_team_stats db' = kept ++ added ∧
     Forall2 row_evolves (nhl_team_stats db) kept) ∧
  (unique_keys (nhl_team_stats db) → unique_keys (nhl_team_stats db')).
Proof.
  intros db db'. subst db db'.
  enough (database_evolves (persisted st) (persisted (program w st).2)) as H
    by (destruct H as [H1 [H2 H3]]; by split_and!).
  unfold program. rewrite bind_run. unfold lift, module_init.
  destruct (environ w !! DB_URL_KEY) as [url|]; [|apply database_evolves_refl].
  set (cfg := {| DB_URL := url; SEASON := environ w !! py "NHL_SEASON" |}).
  rewrite main_unfold, bind_run.
  destruct (main_prologue w cfg st) as [r st1] eqn:E.
  destruct (main_prologue_outcome w cfg st st1 r E) as [Hp1 Hr1].
  destruct r as [teams|e]; [|simpl; rewrite Hp1; apply database_evolves_refl].
  destruct Hr1 as (Hw1 & Ha1 & _). rewrite bind_run.
  destruct (for_teams w (resolve_season w (SEASON cfg) None) teams 0%nat st1)
    as [r st2] eqn:E2.
  pose proof (working_evolves_for_teams _ _ _ _ _ _ E2) as Hev.
  destruct (in_transaction_for_teams w _ _ _ _ _ _ E2 Ha1) as (Hp2 & _ & _).
  destruct r as [n|e].
  2:{ simpl. rewrite Hp2, Hp1. apply database_evolves_refl. }
  rewrite bind_run. unfold commit at 1. destruct (db_fault w _ OpCommit); simpl.
  - rewrite Hp2, Hp1. apply database_evolves_refl.
  - by rewrite <- Hw1.
Qed.

End Evolves.

(** ** A team with data *)

Section TeamWithData.
Context `{U : PyUnicode} `{P : Postgres}.
Variable w : world.

(** X14. A response without an error status is what its body is: an object
    is mapped, whatever it holds; a body that is JSON but not an object
    (null, a list, a number, a string) is not taken for "no data" but
    raises [AttributeError]. *)
Theorem fetch_team_season_summary_by_body (team_code season : pystr) (st : state)
    (status : Z) (data : json) :
  http w (length (log st)) (club_stats_url team_code season)
    = Response status (Some data) →
  ¬ (400 ≤ status < 600) →
  fetch_team_season_summary w team_code season st =
    (match data with
     | JObj d => Ok (Some (summary_of d))
     | _ => Raise AttributeError
     end,
     set_log (log st ++ [EvHttpGet (club_stats_url team_code season)]) st).
Proof.
  intros Hh Hs. unfold fetch_team_season_summary, except_HTTPError.
  rewrite !bind_run. unfold nhl_get. rewrite Hh.
  assert ((400 <=? status) && (status <? 600) = false) as -> by lia.
  by destruct data.
Qed.

(** X15. The turn of a team whose statistics were decoded, when the
    database is well: one request, one SELECT, one UPSERT, one pause, in
    that order; the counter grows by one; the statistics table the session
    sees becomes what the statement makes of it with the team's record,
    whose identifier is a stored one that matches the name, or else the
    name's slug. *)
Theorem loop_body_upserts_team (season : pystr) (t : team) (nm : pystr) (n : nat)
    (st : state) (status : Z) (data : gmap pystr json) :
  name t = JStr nm →
  http w (length (log st)) (club_stats_url (code t) season)
    = Response status (Some (JObj data)) →
  ¬ (400 ≤ status < 600) →
  (∀ s, db_fault w (S (length (log st))) (OpExecute s) = false) →
  (∀ s, db_fault w (S (S (length (log st)))) (OpExecute s) = false) →
  ∃ id tbl' st',
    loop_body w season t n st = (Ok (S n), st') ∧
    (id = JStr (slug_from_name nm) ∨
     ∃ r, r ∈ nhl_teams (working st) ∧ name_matches nm r = true ∧
          id = default JNull (r !! py "team_id")) ∧
    UPSERT_SQL (txn_now w) (stat_record id season t (summary_of data))
      (nhl_team_stats (working st)) = Ok tbl' ∧
    working st' = {| nhl_teams := nhl_teams (working st); nhl_team_stats := tbl' |} ∧
    log st' = log st ++
      [EvHttpGet (club_stats_url (code t) season);
       EvDb (OpExecute (SqlSelectTeam (JStr nm)));
       EvDb (OpExecute (SqlUpsert (stat_record id season t (summary_of data))));
       EvSleep].
Proof.
  intros Hname Hh Hs Hf1 Hf2.
  unfold loop_body. rewrite bind_run.
  assert (fetch_team_season_summary w (code t) season st =
            (Ok (Some (summary_of data)),
             set_log (log st ++ [EvHttpGet (club_stats_url (code t) season)]) st))
    as ->.
  { unfold fetch_team_season_summary, except_HTTPError.
    rewrite !bind_run. unfold nhl_get. rewrite Hh.
    by assert ((400 <=? status) && (status <? 600) = false) as -> by lia. }
  rewrite bool_decide_eq_false_2 by apply summary_of_nonempty.
  rewrite bind_run. unfold team_id_from_db_or_slug. rewrite bind_run, Hname.
  unfold cur_execute at 1. cbn [log working autocommit persisted set_log].
  rewrite length_app, Nat.add_1_r, Hf1, select_team_rows.
  set (found := take 1 (base.filter (fun r => name_matches nm r = true)
                          (nhl_teams (working st)))).
  assert (∃ id,
            (id = JStr (slug_from_name nm) ∨
             ∃ r, r ∈ nhl_teams (working st) ∧ name_matches nm r = true ∧
                  id = default JNull (r !! py "team_id")) ∧
            match head ((fun r : row => [default JNull (r !! py "team_id")]) <$> found) with
            | Some (id :: _) => mret id
            | _ => mret (JStr (slug_from_name nm))
            end = (mret id : M json)) as (id & Hid & ->).
  { unfold found.
    destruct (base.filter (fun r => name_matches nm r = true)
                (nhl_teams (working st))) as [|r l] eqn:E.
    - exists (JStr (slug_from_name nm)). split; [by left|done].
    - exists (default JNull (r !! py "team_id")). split; [|done]. right.
      assert (r ∈ base.filter (fun r => name_matches nm r = true)
                    (nhl_teams (working st))) as Hr by (rewrite E; by left).
      apply list_elem_of_filter in Hr as [Hm Hr]. eauto. }
  unfold mret at 1, M_ret at 1. cbv beta iota.
  rewrite bind_run. unfold cur_execute at 1.
  cbn [log working autocommit persisted].
  rewrite !length_app, !Nat.add_1_r, Hf2. cbn [run_stmt].
  destruct (stat_record_runs id season t data (txn_now w)
              (nhl_team_stats (working st))) as [tbl' Hu].
  rewrite Hu. exists id, tbl'. eexists. split; [reflexivity|].
  split_and!; [done|done|done|]. simpl. by rewrite <- !app_assoc.
Qed.

End TeamWithData.

Lemma fetch_team_season_summary_by_body_witness :
  http boston_world (length (log (initial empty_db)))
    (club_stats_url (U:=latin_unicode) (py "bos") (py "20252026"))
    = Response 200 (Some (JObj boston_stats)) ∧
  ¬ (400 ≤ 200 < 600) ∧
  fetch_team_season_summary (U:=latin_unicode) boston_world (py "bos")
    (py "20252026") (initial empty_db)
  = (Ok (Some (summary_of boston_stats)),
     set_log (log (initial empty_db) ++
              [EvHttpGet (club_stats_url (U:=latin_unicode) (py "bos") (py "20252026"))])
       (initial empty_db)).
Proof.
  assert (http boston_world (length (log (initial empty_db)))
            (club_stats_url (U:=latin_unicode) (py "bos") (py "20252026"))
          = Response 200 (Some (JObj boston_stats))) as H1 by (by vm_compute).
  assert (¬ (400 ≤ 200 < 600)) as H2 by lia.
  split_and!; [done|done|].
  exact (fetch_team_season_summary_by_body (U:=latin_unicode) boston_world
           (py "bos") (py "20252026") (initial empty_db) 200 (JObj boston_stats)
           H1 H2).
Defined.

Lemma loop_body_upserts_team_witness :
  name boston = JStr (py "Boston Bruins") ∧
  http boston_world (length (log (initial empty_db)))
    (club_stats_url (U:=latin_unicode) (code boston) (py "20252026"))
    = Response 200 (Some (JObj boston_stats)) ∧
  ¬ (400 ≤ 200 < 600) ∧
  (∀ s, db_fault boston_world (S (length (log (initial empty_db)))) (OpExecute s)
        = false) ∧
  (∀ s, db_fault boston_world (S (S (length (log (initial empty_db))))) (OpExecute s)
        = false) ∧
  (loop_body (U:=latin_unicode) (P:=plain_postgres) boston_world (py "20252026")
     boston 0%nat (initial empty_db)).1 = Ok 1%nat.
Proof.
  assert (http boston_world (length (log (initial empty_db)))
            (club_stats_url (U:=latin_unicode) (code boston) (py "20252026"))
          = Response 200 (Some (JObj boston_stats))) as H2 by (by vm_compute).
  assert (¬ (400 ≤ 200 < 600)) as H3 by lia.
  split_and!; [done|done|done|done|done|].
  destruct (loop_body_upserts_team (U:=latin_unicode) (P:=plain_postgres) boston_world
              (py "20252026") boston (py "Boston Bruins") 0%nat (initial empty_db)
              200 boston_stats eq_refl H2 H3 (fun _ => eq_refl) (fun _ => eq_refl))
    as (id & tbl' & st' & Hrun & _).
  by rewrite Hrun.
Defined.
